(** * A page-structured virtual file system over a fixed set of host files

    Shallow embedding of [include/PhysicalFile.h], [include/File.h] and
    [include/VFS.h] (namespace [TestTask]).

    - [size_t] is a 64-bit unsigned integer, modelled as [Z] with the
      wrap-around written out ([wrap]).
    - [char] buffers are [list byte]; a [char*] that may be null is an
      [option (list byte)].
    - a [File*] handed to the caller points into the node-based
      [virtual_files] map; it is modelled by the key of the entry it points
      to, a null pointer by [None].
    - the class is stateful and throws: its member functions live in a
      state-and-exception monad [M] over the record [VFS]. Loops that the
      source does not bound take fuel and answer [Diverge] when it runs out.
    - mutex acquisitions and calls into [PhysicalFile] are recorded in a
      trace, so that "without touching a backing file" and "before any lock
      is taken" can be stated. Threads are not modelled: one operation runs
      at a time.
    - the host is assumed to work: streams do not fail, and the paths given
      to the constructor are already resolved against the root directory.

    The file has three parts: the embedding of the code, the vocabulary of
    the statements (with the concrete scenarios they are tried on), and the
    lemmas and theorems. *)

From Stdlib Require Import ZArith Lia List Strings.Byte Strings.Ascii Strings.String.
From stdpp Require Import base option list strings gmap.

Local Open Scope Z_scope.

(** ** Machine words and byte buffers *)

(** [sizeof(size_t)] on the LP64 targets the code is built for. *)
Definition st_size : Z := 8.

(** Number of values of [size_t]. *)
Definition size_modulus : Z := 2 ^ (8 * st_size).

Definition wrap (x : Z) : Z := x mod size_modulus.

(** [std::string::npos]. *)
Definition npos : Z := size_modulus - 1.

Definition zlen {A} (l : list A) : Z := Z.of_nat (length l).

Definition byte_of_Z (z : Z) : byte :=
  match Byte.of_N (Z.to_N (z mod 256)) with
  | Some b => b
  | None => x00
  end.

Definition Z_of_byte (b : byte) : Z := Z.of_N (Byte.to_N b).

(** Little-endian object representation of an unsigned integer. *)
Fixpoint bytes_of_Z (n : nat) (z : Z) : list byte :=
  match n with
  | O => []
  | S n' => byte_of_Z z :: bytes_of_Z n' (z / 256)
  end.

Fixpoint Z_of_bytes (l : list byte) : Z :=
  match l with
  | [] => 0
  | b :: l' => Z_of_byte b + 256 * Z_of_bytes l'
  end.

(** [std::string(reinterpret_cast<char*>(&n), st_size)] *)
Definition size_t_bytes (n : Z) : list byte := bytes_of_Z (Z.to_nat st_size) n.

(** [*reinterpret_cast<const size_t*>(b + pos)]; reading outside the buffer
    is undefined and gives [None]. *)
Definition read_size_t (b : list byte) (pos : Z) : option Z :=
  if (0 <=? pos) && (pos + st_size <=? zlen b)
  then Some (Z_of_bytes (take (Z.to_nat st_size) (drop (Z.to_nat pos) b)))
  else None.

(** [memcpy(buf + off, data, |data|)] on a caller's buffer. *)
Definition store_at (off : Z) (data buf : list byte) : list byte :=
  take (Z.to_nat off) buf ++ data ++ drop (Z.to_nat off + length data) buf.

(** [n] bytes starting at [buf]; what lies behind the end of the caller's
    array is outside the model and reads as zero. *)
Definition load (n : Z) (buf : list byte) : list byte :=
  resize (Z.to_nat n) x00 buf.

(** [std::array<char, n>{0}] *)
Definition zeroes (n : Z) : list byte := replicate (Z.to_nat n) x00.

(** ** [std::filesystem::path] in the generic POSIX format *)

(** A path is kept as its pathname. *)
Abbreviation path := string.

Definition slash : ascii := "/"%char.

Definition is_slash (c : ascii) : bool := Ascii.eqb c slash.

Fixpoint drop_while {A} (p : A -> bool) (l : list A) : list A :=
  match l with
  | [] => []
  | x :: l' => if p x then drop_while p l' else l
  end.

Fixpoint take_while {A} (p : A -> bool) (l : list A) : list A :=
  match l with
  | [] => []
  | x :: l' => if p x then x :: take_while p l' else []
  end.

Definition has_root_directory (p : path) : bool :=
  match p with
  | String c _ => is_slash c
  | EmptyString => false
  end.

(** [has_relative_path]: something besides the root directory. *)
Definition has_relative_path (p : path) : bool :=
  negb (forallb is_slash (list_ascii_of_string p)).

(** [p == vRoot], with [vRoot = "/"]: paths compare element by element, so
    every non-empty run of separators is the root. *)
Definition is_vRoot (p : path) : bool :=
  has_root_directory p && negb (has_relative_path p).

Definition vRoot : path := "/"%string.

(** [path::parent_path]: the pathname up to the end of the element before
    the last one; a path without a relative part is its own parent. *)
Definition parent_path (p : path) : path :=
  if has_relative_path p then
    let r := drop_while (fun c => negb (is_slash c)) (rev (list_ascii_of_string p)) in
    match r with
    | [] => EmptyString
    | _ =>
        if forallb is_slash r then vRoot
        else string_of_list_ascii (rev (drop_while is_slash r))
    end
  else p.

(** [vRoot / p] for a [p] without root directory. *)
Definition root_append (p : path) : path := append vRoot p.

(** The elements a path iterates over behind its root directory: file names
    separated by runs of separators, and an empty last element after a
    trailing separator. *)
Fixpoint elements_fuel (n : nat) (l : list ascii) : list string :=
  match n with
  | O => []
  | S n' =>
      match l with
      | [] => []
      | _ =>
          let name := take_while (fun c => negb (is_slash c)) l in
          let rest := drop_while (fun c => negb (is_slash c)) l in
          match rest with
          | [] => [string_of_list_ascii name]
          | _ =>
              match drop_while is_slash rest with
              | [] => [string_of_list_ascii name; EmptyString]
              | rest' => string_of_list_ascii name :: elements_fuel n' rest'
              end
          end
      end
  end.

Definition elements (p : path) : list string :=
  let l := drop_while is_slash (list_ascii_of_string p) in
  elements_fuel (S (length l)) l.

Fixpoint compare_elements (a b : list string) : comparison :=
  match a, b with
  | [], [] => Eq
  | [], _ :: _ => Lt
  | _ :: _, [] => Gt
  | x :: a', y :: b' =>
      match String.compare x y with
      | Eq => compare_elements a' b'
      | c => c
      end
  end.

(** [path::compare] *)
Definition path_compare (p q : path) : comparison :=
  if String.eqb p q then Eq
  else
    match has_root_directory p, has_root_directory q with
    | false, true => Lt
    | true, false => Gt
    | _, _ => compare_elements (elements p) (elements q)
    end.

Definition path_eqb (p q : path) : bool :=
  match path_compare p q with Eq => true | _ => false end.

(** ** [PhysicalFile<stream>] *)

(** [content] is what the host file holds (the stream [str] is opened on it
    for the whole life of the object); [file_size] is the size the object
    keeps track of. *)
Record PhysicalFile := mkPhysicalFile {
  filepath : path;
  content : list byte;
  file_size : Z
}.

Module PFile.

(** [file_size ?: fs::file_size(filepath)] *)
Definition GetSize (f : PhysicalFile) : Z :=
  if file_size f =? 0 then zlen (content f) else file_size f.

(** The constructor, on a host file holding [host] (empty when the file had
    to be created). *)
Definition open (p : path) (host : list byte) : PhysicalFile :=
  {| filepath := p; content := host; file_size := zlen host |}.

(** [seekp(pos); write(data)] on the host file: a gap behind the old end is
    filled with zero bytes. *)
Definition stream_write (pos : Z) (data c : list byte) : list byte :=
  let c' := resize (Z.to_nat pos) x00 c in
  c' ++ data ++ drop (Z.to_nat pos + length data) c.

(** [!buf || !length || pos > GetSize()] *)
Definition Write_rejects (f : PhysicalFile) (buf : option (list byte)) (length pos : Z)
  : bool :=
  match buf with
  | None => true
  | Some _ => (length =? 0) || (GetSize f <? pos)
  end.

(** [Write(buf, length, pos)]: the file afterwards and the returned count. *)
Definition Write (f : PhysicalFile) (buf : option (list byte)) (length pos : Z)
  : PhysicalFile * Z :=
  if Write_rejects f buf length pos then (f, 0)
  else
    let prev := pos in
    let data := load length (default [] buf) in
    let tellp := pos + zlen data in
    let size' := if file_size f <? wrap (pos + length) then tellp else file_size f in
    ({| filepath := filepath f;
        content := stream_write pos data (content f);
        file_size := size' |},
     tellp - prev).

(** [!buf || !length || pos >= GetSize()] *)
Definition Read_rejects (f : PhysicalFile) (buf : option (list byte)) (length pos : Z)
  : bool :=
  match buf with
  | None => true
  | Some _ => (length =? 0) || (GetSize f <=? pos)
  end.

(** [Read(buf, length, pos)]: the bytes stored at [buf] and the returned
    count. *)
Definition Read (f : PhysicalFile) (buf : option (list byte)) (length pos : Z)
  : list byte * Z :=
  if Read_rejects f buf length pos then ([], 0)
  else
    let n := Z.min length (GetSize f - pos) in
    let data := take (Z.to_nat n) (drop (Z.to_nat pos) (content f)) in
    (data, zlen data).

Definition GetPath (f : PhysicalFile) : path := filepath f.

End PFile.


(** ** [File.h] and the private types of [VFS] *)

(** [enum FileType : char] *)
Module FileType.
Inductive t := dir | file.

Definition char (v : t) : byte :=
  match v with
  | dir => x07   (* 0b00000111 *)
  | file => x70  (* 0b01110000 *)
  end.

(** [FileType(c)], for the values the [switch] of [Init] has a case for. *)
Definition of_char (c : byte) : option t :=
  if Byte.eqb c (char dir) then Some dir
  else if Byte.eqb c (char file) then Some file
  else None.
End FileType.

Inductive FileStatus := openW | openR | closed.

Definition FileStatus_eqb (a b : FileStatus) : bool :=
  match a, b with
  | openW, openW | openR, openR | closed, closed => true
  | _, _ => false
  end.

Module File.
Record t := mk {
  p_file : path;
  name : path;
  data_len : Z;
  page : Z;
  status : FileStatus;
  readers : Z
}.

(** [File(p_file, name, page)] *)
Definition new (p_file name : path) (page : Z) : t :=
  {| p_file := p_file; name := name; data_len := 0; page := page;
     status := closed; readers := 0 |}.

Definition set_data_len (v : Z) (f : t) : t :=
  {| p_file := p_file f; name := name f; data_len := v; page := page f;
     status := status f; readers := readers f |}.

Definition set_status (v : FileStatus) (f : t) : t :=
  {| p_file := p_file f; name := name f; data_len := data_len f; page := page f;
     status := v; readers := readers f |}.

Definition set_readers (v : Z) (f : t) : t :=
  {| p_file := p_file f; name := name f; data_len := data_len f; page := page f;
     status := status f; readers := v |}.
End File.

Module Dir.
Record t := mk {
  p_file : path;
  page : Z
}.
End Dir.

(** The two local structs of [ReadFileInfo]. *)
Module Info.
Record t := mk {
  type : byte;
  name : string;
  page : Z
}.

(** [Info{}] *)
Definition empty : t := {| type := x00; name := EmptyString; page := 0 |}.
End Info.

(** ** State, exceptions and the trace *)

Inductive exn :=
| NoFiles
| TooManyFiles
| RootIsNotDirectory
| FileWritingError
| FileReadingError
| FileAlreadyExists
| DirAlreadyExists
| out_of_range            (* thrown by [at] and [substr] *)
| undefined_behaviour.    (* a read outside an array *)

Inductive mutex :=
| editing_files_mutex
| v_files_mutex
| v_dirs_mutex
| io_mutexes_at (p : path)      (* [io_mutexes.at(p)] of the VFS *)
| io_mutex (p : path).          (* [PhysicalFile::io_mutex] of file [p] *)

Inductive event :=
| Lock (m : mutex)
| CallRead (p : path) (length pos : Z)     (* [PhysicalFile::Read] *)
| CallWrite (p : path) (length pos : Z).   (* [PhysicalFile::Write] *)

Record VFS := mkVFS {
  physical_files : list (path * PhysicalFile);  (* [std::map], in key order *)
  virtual_files : gmap string File.t;
  virtual_dirs : gmap string Dir.t;
  io_mutexes : list path;
  num_of_files : Z;
  trace : list event
}.

Definition set_physical_files (v : list (path * PhysicalFile)) (s : VFS) : VFS :=
  {| physical_files := v; virtual_files := virtual_files s;
     virtual_dirs := virtual_dirs s; io_mutexes := io_mutexes s;
     num_of_files := num_of_files s; trace := trace s |}.

Definition set_virtual_files (v : gmap string File.t) (s : VFS) : VFS :=
  {| physical_files := physical_files s; virtual_files := v;
     virtual_dirs := virtual_dirs s; io_mutexes := io_mutexes s;
     num_of_files := num_of_files s; trace := trace s |}.

Definition set_virtual_dirs (v : gmap string Dir.t) (s : VFS) : VFS :=
  {| physical_files := physical_files s; virtual_files := virtual_files s;
     virtual_dirs := v; io_mutexes := io_mutexes s;
     num_of_files := num_of_files s; trace := trace s |}.

Definition set_io_mutexes (v : list path) (s : VFS) : VFS :=
  {| physical_files := physical_files s; virtual_files := virtual_files s;
     virtual_dirs := virtual_dirs s; io_mutexes := v;
     num_of_files := num_of_files s; trace := trace s |}.

Definition set_num_of_files (v : Z) (s : VFS) : VFS :=
  {| physical_files := physical_files s; virtual_files := virtual_files s;
     virtual_dirs := virtual_dirs s; io_mutexes := io_mutexes s;
     num_of_files := v; trace := trace s |}.

Definition set_trace (v : list event) (s : VFS) : VFS :=
  {| physical_files := physical_files s; virtual_files := virtual_files s;
     virtual_dirs := virtual_dirs s; io_mutexes := io_mutexes s;
     num_of_files := num_of_files s; trace := v |}.

(** How a call ends: it returns, it throws, or it never comes back (the
    fuel of the model ran out). *)
Inductive outcome (A : Type) :=
| Ok (a : A)
| Throw (e : exn)
| Diverge.
Arguments Ok {A} a.
Arguments Throw {A} e.
Arguments Diverge {A}.

#[export] Instance outcome_ret : MRet outcome := fun _ a => Ok a.
#[export] Instance outcome_bind : MBind outcome := fun _ _ k m =>
  match m with
  | Ok a => k a
  | Throw e => Throw e
  | Diverge => Diverge
  end.

(** Member functions of [VFS]. *)
Definition M (A : Type) : Type := VFS -> outcome (A * VFS).

#[export] Instance M_ret : MRet M := fun _ a s => Ok (a, s).
#[export] Instance M_bind : MBind M := fun _ _ k m s =>
  match m s with
  | Ok (a, s') => k a s'
  | Throw e => Throw e
  | Diverge => Diverge
  end.

Definition throw {A} (e : exn) : M A := fun _ => Throw e.
Definition diverge {A} : M A := fun _ => Diverge.
Definition get : M VFS := fun s => Ok (s, s).
Definition modify (f : VFS -> VFS) : M unit := fun s => Ok (tt, f s).

(** A [const] member function called from a member function. *)
Definition lift {A} (o : outcome A) : M A := fun s =>
  match o with
  | Ok a => Ok (a, s)
  | Throw e => Throw e
  | Diverge => Diverge
  end.

Definition of_option {A} (e : exn) (o : option A) : outcome A :=
  match o with
  | Some a => Ok a
  | None => Throw e
  end.

Definition log (e : event) : M unit := modify (fun s => set_trace (trace s ++ [e]) s).

(** [std::lock_guard lock(m)] *)
Definition lock_guard (m : mutex) : M unit := log (Lock m).

(** ** The ordered map [physical_files] *)

Fixpoint pf_lookup (p : path) (l : list (path * PhysicalFile)) : option PhysicalFile :=
  match l with
  | [] => None
  | (q, f) :: l' => if path_eqb p q then Some f else pf_lookup p l'
  end.

(** Replaces the value of an existing key. *)
Fixpoint pf_update (p : path) (f : PhysicalFile) (l : list (path * PhysicalFile))
  : list (path * PhysicalFile) :=
  match l with
  | [] => []
  | (q, g) :: l' => if path_eqb p q then (q, f) :: l' else (q, g) :: pf_update p f l'
  end.

(** [emplace] of a key that is not in the map yet. *)
Fixpoint pf_emplace (p : path) (f : PhysicalFile) (l : list (path * PhysicalFile))
  : list (path * PhysicalFile) :=
  match l with
  | [] => [(p, f)]
  | (q, g) :: l' =>
      match path_compare p q with
      | Lt => (p, f) :: l
      | _ => (q, g) :: pf_emplace p f l'
      end
  end.

(** [physical_files.at(p)] *)
Definition physical_files_at (p : path) : M PhysicalFile :=
  s ← get; lift (of_option out_of_range (pf_lookup p (physical_files s))).

(** A [PFile&] is a reference to the value stored under a key of
    [physical_files]; the calls through it read and replace that value. *)
Definition pfile_GetSize (p : path) : M Z :=
  f ← physical_files_at p; mret (PFile.GetSize f).

Definition pfile_Read (p : path) (buf : option (list byte)) (length pos : Z)
  : M (list byte * Z) :=
  f ← physical_files_at p;
  log (CallRead p length pos);;
  (if PFile.Read_rejects f buf length pos then mret tt else lock_guard (io_mutex p));;
  mret (PFile.Read f buf length pos).

Definition pfile_Write (p : path) (buf : option (list byte)) (length pos : Z) : M Z :=
  f ← physical_files_at p;
  log (CallWrite p length pos);;
  (if PFile.Write_rejects f buf length pos then mret tt else lock_guard (io_mutex p));;
  let '(f', n) := PFile.Write f buf length pos in
  modify (fun s => set_physical_files (pf_update p f' (physical_files s)) s);;
  mret n.

(** [Write(buf, length)]: at the end of the file. *)
Definition pfile_Append (p : path) (buf : option (list byte)) (length : Z) : M Z :=
  size ← pfile_GetSize p; pfile_Write p buf length size.

(** ** [VFS<max_files, page_size, stream>]: private member functions *)

(** [std::stack::empty] *)
Definition stack_empty {A} (l : list A) : bool :=
  match l with [] => true | _ :: _ => false end.

(** [std::string_view::find] *)
Fixpoint is_prefix (q l : list byte) : bool :=
  match q, l with
  | [], _ => true
  | _ :: _, [] => false
  | a :: q', b :: l' => Byte.eqb a b && is_prefix q' l'
  end.

Fixpoint find_from (q l : list byte) (i : Z) : Z :=
  if is_prefix q l then i
  else
    match l with
    | [] => npos
    | _ :: l' => find_from q l' (i + 1)
    end.

(** [virtual_dirs.at(p)], [virtual_files.at(p)], [count] *)
Definition virtual_dirs_at (p : path) : M Dir.t :=
  s ← get; lift (of_option out_of_range (virtual_dirs s !! p)).

Definition virtual_files_at (p : path) : M File.t :=
  s ← get; lift (of_option out_of_range (virtual_files s !! p)).

Definition virtual_dirs_count (s : VFS) (p : path) : bool :=
  match virtual_dirs s !! p with Some _ => true | None => false end.

Definition virtual_files_count (s : VFS) (p : path) : bool :=
  match virtual_files s !! p with Some _ => true | None => false end.

(** [f->...] through a [File*] that is not null: the entry must still be
    there. *)
Definition deref (h : string) : M File.t :=
  s ← get; lift (of_option undefined_behaviour (virtual_files s !! h)).

(** An assignment to members of the [File] stored under [k], through a
    reference obtained from [virtual_files.at(k)] ([e] is [out_of_range]) or
    through a [File*] ([e] is [undefined_behaviour]). *)
Definition update_file (e : exn) (k : string) (g : File.t → File.t) : M unit :=
  s ← get;
  match virtual_files s !! k with
  | Some f => modify (fun s => set_virtual_files (<[k := g f]> (virtual_files s)) s)
  | None => throw e
  end.

Definition pfile_GetPath (p : path) : M path :=
  f ← physical_files_at p; mret (PFile.GetPath f).

(** [std::lock_guard lock(io_mutexes.at(p))] *)
Definition io_mutexes_lock (p : path) : M unit :=
  s ← get;
  if existsb (path_eqb p) (io_mutexes s) then lock_guard (io_mutexes_at p)
  else throw out_of_range.

(** [std::min_element] over the map, comparing [GetSize]. *)
Fixpoint min_element (smallest : path * PhysicalFile) (l : list (path * PhysicalFile))
  : path * PhysicalFile :=
  match l with
  | [] => smallest
  | x :: l' =>
      if PFile.GetSize (snd x) <? PFile.GetSize (snd smallest)
      then min_element x l' else min_element smallest l'
  end.

Definition FindSmallestPFile : M path :=
  s ← get;
  match physical_files s with
  | [] => throw undefined_behaviour
  | x :: l => mret (fst (min_element x l))
  end.

Definition InsertDir (name : string) (page : Z) (path : path) : M unit :=
  lock_guard v_dirs_mutex;;
  s ← get;
  if virtual_dirs_count s name then throw DirAlreadyExists
  else modify (fun s => set_virtual_dirs (<[name := Dir.mk path page]> (virtual_dirs s)) s).

Definition InsertFile (name : string) (page : Z) (path : path) : M unit :=
  lock_guard v_files_mutex;;
  s ← get;
  if virtual_files_count s name then throw FileAlreadyExists
  else modify (fun s => set_virtual_files (<[name := File.new path name page]> (virtual_files s)) s).

Section VFS.

(** The template parameters. *)
Variable max_files : Z.
Variable page_size : Z.

(** [const size_t& start], bound to [st_size]. *)
Definition start : Z := st_size.

(** [substr(pos, n)] of a view of [page_size] characters throws behind the
    end. *)
Definition substr_check (pos : Z) : outcome unit :=
  if page_size <? pos then Throw out_of_range else Ok tt.

Definition ReadFileInfo (page : list byte) (pos : Z) : outcome (Info.t * Z) :=
  substr_check pos;;
  type ← of_option undefined_behaviour (page !! Z.to_nat pos);
  let pos := wrap (pos + 1) in
  if Byte.eqb type x00 then mret (Info.empty, 0)
  else
    substr_check pos;;
    name_size ← of_option undefined_behaviour (read_size_t page pos);
    substr_check (wrap (pos + st_size));;
    let name := take (Z.to_nat name_size) (drop (Z.to_nat (wrap (pos + st_size))) page) in
    substr_check (wrap (pos + st_size + name_size));;
    page_num ← of_option undefined_behaviour
                 (read_size_t page (wrap (pos + st_size + name_size)));
    mret ({| Info.type := type; Info.name := string_of_list_byte name;
             Info.page := page_num |},
          wrap (pos + st_size + name_size + st_size)).

Definition GetNextPage (page : list byte) : outcome Z :=
  of_option undefined_behaviour (read_size_t page (wrap (page_size - st_size))).

Definition SetNextPage (p_file : path) (page next_page : Z) : M unit :=
  pfile_Write p_file (Some (size_t_bytes next_page)) st_size
    (wrap ((page + 1) * page_size - st_size + start));;
  mret tt.

Definition GetFileLength (page : list byte) : outcome Z :=
  of_option undefined_behaviour (read_size_t page 0).

Definition SetFileLength (p_file : path) (page len : Z) : M unit :=
  pfile_Write p_file (Some (size_t_bytes len)) st_size (wrap (page * page_size + start));;
  mret tt.

Definition FindFileInPage (page : list byte) (file_name : path) (type : FileType.t) : Z :=
  let name_size := zlen (list_byte_of_string file_name) in
  let query := FileType.char type :: size_t_bytes name_size ++ list_byte_of_string file_name in
  find_from query page 0.

Fixpoint FindPageEnd_loop (fuel : nat) (page : list byte) (pos : Z) : outcome Z :=
  match fuel with
  | O => Diverge
  | S fuel' =>
      c ← of_option undefined_behaviour (page !! Z.to_nat pos);
      if negb (Byte.eqb c x00) && (pos <? page_size) then
        let pos := wrap (pos + 1) in
        substr_check pos;;
        name_size ← of_option undefined_behaviour (read_size_t page pos);
        FindPageEnd_loop fuel' page (wrap (pos + wrap (name_size + st_size + st_size)))
      else mret pos
  end.

Definition FindPageEnd (fuel : nat) (page : list byte) : outcome Z :=
  pos ← FindPageEnd_loop fuel page 0;
  mret (Z.min pos (wrap (page_size - st_size))).

Definition CreateEmptyPage (p_file : path) : M unit :=
  pfile_Append p_file (Some (zeroes page_size)) page_size;;
  mret tt.

Definition IncrementNumOfFiles (p_file : path) : M unit :=
  let buf := zeroes st_size in
  '(data, n) ← pfile_Read p_file (Some buf) st_size 0;
  if negb (n =? st_size) then throw FileReadingError
  else
    let buf := store_at 0 data buf in
    let counter := wrap (Z_of_bytes buf + 1) in
    n ← pfile_Write p_file (Some (size_t_bytes counter)) st_size 0;
    if negb (n =? st_size) then throw FileWritingError
    else modify (fun s => set_num_of_files (wrap (num_of_files s + 1)) s).

(** The [while (len - written_bytes)] loop of [WriteToFile]. *)
Fixpoint WriteToFile_loop (fuel : nat) (buf : list byte) (p_file : path)
  (len page written_bytes : Z) : M Z :=
  match fuel with
  | O => diverge
  | S fuel' =>
      if wrap (len - written_bytes) =? 0 then mret written_bytes
      else
        size ← pfile_GetSize p_file;
        SetNextPage p_file page (wrap (size - st_size) / page_size);;
        n ← pfile_Append p_file (Some (drop (Z.to_nat written_bytes) buf))
              (Z.min (wrap (page_size - st_size)) (wrap (len - written_bytes)));
        WriteToFile_loop fuel' buf p_file len page (wrap (written_bytes + n))
  end.

Definition WriteToFile (fuel : nat) (buf : list byte) (p_file p_file_path : path)
  (len page pos : Z) (carry : bool) : M Z :=
  io_mutexes_lock p_file_path;;
  if len <=? wrap (page_size - pos - st_size) then
    pfile_Write p_file (Some buf) len (wrap (page * page_size + pos + start))
  else
    written_bytes ←
      (if carry
       then pfile_Write p_file (Some buf) (wrap (page_size - pos - st_size))
              (wrap (page * page_size + pos + start))
       else mret 0);
    written_bytes ← WriteToFile_loop fuel buf p_file len page written_bytes;
    pfile_Append p_file (Some (zeroes page_size))
      (wrap (page_size - written_bytes mod page_size));;
    mret written_bytes.

(** The [for] loop of [CreateFile] that walks to the last page of the
    parent's chain. *)
Fixpoint CreateFile_walk (fuel : nat) (p_file : path) (page : Z) (buf : list byte)
  : M (Z * list byte) :=
  match fuel with
  | O => diverge
  | S fuel' =>
      next_page ← lift (GetNextPage buf);
      if next_page =? 0 then mret (page, buf)
      else
        '(data, _) ← pfile_Read p_file (Some buf) page_size
                       (wrap (page_size * next_page + start));
        CreateFile_walk fuel' p_file next_page (store_at 0 data buf)
  end.

Definition CreateFile (fuel : nat) (parent_dir file p_file p_file_path : path)
  (type : FileType.t) : M unit :=
  CreateEmptyPage p_file;;
  page ← (if is_vRoot parent_dir then mret 0
          else d ← virtual_dirs_at parent_dir; mret (Dir.page d));
  let buf := zeroes page_size in
  '(data, _) ← pfile_Read p_file (Some buf) page_size (wrap (page_size * page + start));
  '(page, buf) ← CreateFile_walk fuel p_file page (store_at 0 data buf);
  let name_size := zlen (list_byte_of_string file) in
  size ← pfile_GetSize p_file;
  let next_page := wrap (wrap (size - st_size) / page_size - 1) in
  let file_info :=
    FileType.char type :: size_t_bytes name_size ++ list_byte_of_string file
      ++ size_t_bytes next_page in
  pos ← lift (FindPageEnd fuel buf);
  WriteToFile fuel file_info p_file p_file_path
    (wrap (1 + st_size + name_size + st_size)) page pos false;;
  match type with
  | FileType.file => InsertFile file next_page p_file_path;; IncrementNumOfFiles p_file
  | FileType.dir => InsertDir file next_page p_file_path
  end.

(** First loop of [OpenExistingDirectories]: climb until a known directory
    or the root, pushing what is not known. The head of the list is the top
    of the stack. *)
Fixpoint OpenExistingDirectories_up (fuel : nat) (file_path : path) (dirs : list path)
  : M (list path * path) :=
  match fuel with
  | O => diverge
  | S fuel' =>
      s ← get;
      if negb (virtual_dirs_count s file_path) && negb (is_vRoot file_path)
      then OpenExistingDirectories_up fuel' (parent_path file_path) (file_path :: dirs)
      else mret (dirs, file_path)
  end.

(** The [do ... while (page)] that looks for the record of [target] in the
    chain starting at [page]; gives the value of [page] behind the loop. *)
Fixpoint OpenExistingDirectories_find (fuel : nat) (open_dir : Dir.t) (target : path)
  (page : Z) (buf : list byte) : M (Z * list byte) :=
  match fuel with
  | O => diverge
  | S fuel' =>
      '(data, n) ← pfile_Read (Dir.p_file open_dir) (Some buf) page_size
                     (wrap (page_size * page + start));
      if negb (page_size =? n) then throw FileReadingError
      else
        let buf := store_at 0 data buf in
        let pos := FindFileInPage buf target FileType.dir in
        if pos =? npos then
          page ← lift (GetNextPage buf);
          if page =? 0 then mret (page, buf)
          else OpenExistingDirectories_find fuel' open_dir target page buf
        else
          '(info, new_pos) ← lift (ReadFileInfo buf pos);
          InsertDir (Info.name info) (Info.page info) (Dir.p_file open_dir);;
          mret (Info.page info, buf)
  end.

(** The [while (!dirs.empty())] around it. *)
Fixpoint OpenExistingDirectories_open (fuel : nat) (open_dir : Dir.t) (dirs : list path)
  (file_path : path) (page : Z) (buf : list byte) : M (list path * path) :=
  match dirs with
  | [] => mret (dirs, file_path)
  | top :: rest =>
      '(page, buf) ← OpenExistingDirectories_find fuel open_dir top page buf;
      if page =? 0 then mret (dirs, file_path)
      else OpenExistingDirectories_open fuel open_dir rest top page buf
  end.

(** Returns the stack and the value left in the reference [file_path]. *)
Definition OpenExistingDirectories (fuel : nat) (file_path : path)
  : M (list path * path) :=
  '(dirs, file_path) ←
    (if negb (is_vRoot file_path) then OpenExistingDirectories_up fuel file_path []
     else mret ([], file_path));
  if negb (stack_empty dirs) && negb (is_vRoot file_path) then
    open_dir ← virtual_dirs_at file_path;
    OpenExistingDirectories_open fuel open_dir dirs file_path (Dir.page open_dir)
      (zeroes page_size)
  else mret (dirs, file_path).

Fixpoint OpenExistingFile_loop (fuel : nat) (p_file file_path : path) (page : Z)
  (buf : list byte) : M bool :=
  match fuel with
  | O => diverge
  | S fuel' =>
      '(data, n) ← pfile_Read p_file (Some buf) page_size
                     (wrap (page_size * page + start));
      if negb (page_size =? n) then throw FileReadingError
      else
        let buf := store_at 0 data buf in
        let pos := FindFileInPage buf file_path FileType.file in
        if pos =? npos then
          page ← lift (GetNextPage buf);
          if page =? 0 then mret false
          else OpenExistingFile_loop fuel' p_file file_path page buf
        else
          '(info, new_pos) ← lift (ReadFileInfo buf pos);
          p ← pfile_GetPath p_file;
          InsertFile file_path (Info.page info) p;;
          mret true
  end.

Definition OpenExistingFile (fuel : nat) (p_file file_path : path) : M bool :=
  d ← virtual_dirs_at (parent_path file_path);
  OpenExistingFile_loop fuel p_file file_path (Dir.page d) (zeroes page_size).

(** The inner [do ... while (pos > 0 && pos < page_size - st_size)] of
    [Init]. In the [switch], [case FileType::dir] runs [InsertDir] and falls
    through to the [break] of [default]. *)
Fixpoint Init_records (fuel : nat) (path : path) (buf : list byte) (pos : Z) : M unit :=
  match fuel with
  | O => diverge
  | S fuel' =>
      '(info, new_pos) ← lift (ReadFileInfo buf pos);
      match FileType.of_char (Info.type info) with
      | Some FileType.dir => InsertDir (Info.name info) (Info.page info) path
      | Some FileType.file => mret tt
      | None => mret tt
      end;;
      let pos := new_pos in
      if (0 <? pos) && (pos <? wrap (page_size - st_size))
      then Init_records fuel' path buf pos
      else mret tt
  end.

(** The outer [do ... while (page > 0)]. *)
Fixpoint Init_pages (fuel : nat) (path file : path) (buf : list byte) (page : Z)
  : M unit :=
  match fuel with
  | O => diverge
  | S fuel' =>
      '(data, n) ← pfile_Read file (Some buf) page_size (wrap (page * page_size + start));
      if negb (n =? page_size) then throw FileReadingError
      else
        let buf := store_at 0 data buf in
        Init_records fuel path buf 0;;
        page ← lift (GetNextPage buf);
        if 0 <? page then Init_pages fuel' path file buf page else mret tt
  end.

Definition Init (fuel : nat) (path file : path) : M unit :=
  let st_buf := zeroes st_size in
  '(data, n) ← pfile_Read file (Some st_buf) st_size 0;
  if negb (st_size =? n) then throw FileReadingError
  else
    let st_buf := store_at 0 data st_buf in
    if Z_of_bytes st_buf =? 0 then mret tt
    else
      modify (fun s => set_num_of_files (wrap (num_of_files s + Z_of_bytes st_buf)) s);;
      Init_pages fuel path file (zeroes page_size) 0.

(** ** The constructor *)

(** The state before the body of the constructor runs. *)
Definition VFS_members : VFS :=
  {| physical_files := []; virtual_files := ∅; virtual_dirs := ∅;
     io_mutexes := []; num_of_files := 0; trace := [] |}.

(** The [for (auto file : files)] loop. Every host path comes resolved
    against the root directory, together with what the host file holds
    (nothing, when it does not exist yet); creating the root and the parent
    directories is the host's work. *)
Fixpoint VFS_open_files (files : list (path * list byte)) : M unit :=
  match files with
  | [] => mret tt
  | (file, host) :: rest =>
      s ← get;
      match pf_lookup file (physical_files s) with
      | None =>
          modify (fun s =>
            set_io_mutexes (io_mutexes s ++ [file])
              (set_physical_files (pf_emplace file (PFile.open file host) (physical_files s)) s))
      | Some _ => throw FileAlreadyExists
      end;;
      size ← pfile_GetSize file;
      (if size =? 0 then
         n ← pfile_Append file (Some (zeroes page_size)) st_size;
         if negb (st_size =? n) then throw FileWritingError
         else CreateEmptyPage file
       else mret tt);;
      VFS_open_files rest
  end.

(** The [Init] tasks, joined in the order of the map. *)
Fixpoint VFS_init_files (fuel : nat) (keys : list path) : M unit :=
  match keys with
  | [] => mret tt
  | p :: rest => Init fuel p p;; VFS_init_files fuel rest
  end.

Definition VFS_new (fuel : nat) (files : list (path * list byte)) : outcome VFS :=
  if zlen files =? 0 then Throw NoFiles
  else if max_files <? zlen files then Throw TooManyFiles
  else
    '(_, s) ← (VFS_open_files files;;
               s ← get;
               VFS_init_files fuel (map fst (physical_files s))) VFS_members;
    mret s.

(** ** The public operations *)

(** [fs::path v_file_path(name)], made absolute. *)
Definition absolute (name : string) : path :=
  if negb (has_root_directory name) then root_append name else name.

Definition Open (fuel : nat) (name : option string) : M (option string) :=
  match name with
  | None => mret None
  | Some name =>
      let v_file_path := absolute name in
      if is_vRoot v_file_path || is_vRoot (parent_path v_file_path) then mret None
      else
        lock_guard editing_files_mutex;;
        s ← get;
        match virtual_files s !! v_file_path with
        | Some file =>
            if negb (FileStatus_eqb (File.status file) openR) then mret None
            else
              update_file out_of_range v_file_path
                (fun f => File.set_readers (wrap (File.readers f + 1)) f);;
              mret (Some v_file_path)
        | None =>
            '(dirs, parent) ← OpenExistingDirectories fuel (parent_path v_file_path);
            if negb (stack_empty dirs) then mret None
            else
              d ← virtual_dirs_at parent;
              let p_file := Dir.p_file d in
              physical_files_at p_file;;
              file_found ←
                (if negb (is_vRoot (parent_path v_file_path))
                 then OpenExistingFile fuel p_file v_file_path
                 else mret false);
              if (file_found : bool) then
                file ← virtual_files_at v_file_path;
                let buf := zeroes page_size in
                '(data, n) ← pfile_Read p_file (Some buf) page_size
                               (wrap (File.page file * page_size + start));
                if negb (n =? page_size) then throw FileReadingError
                else
                  len ← lift (GetFileLength (store_at 0 data buf));
                  update_file out_of_range v_file_path
                    (fun f => File.set_readers (wrap (File.readers f + 1))
                                (File.set_status openR (File.set_data_len len f)));;
                  mret (Some v_file_path)
              else mret None
        end
  end.

(** [while (dirs.size())] of [Create]. *)
Fixpoint Create_dirs (fuel : nat) (dirs : list path) (p_file p_file_path : path)
  : M unit :=
  match dirs with
  | [] => mret tt
  | top :: rest =>
      CreateFile fuel (parent_path top) top p_file p_file_path FileType.dir;;
      Create_dirs fuel rest p_file p_file_path
  end.

Definition Create (fuel : nat) (name : option string) : M (option string) :=
  match name with
  | None => mret None
  | Some name =>
      let v_file_path := absolute name in
      if is_vRoot v_file_path || is_vRoot (parent_path v_file_path) then mret None
      else
        lock_guard editing_files_mutex;;
        s ← get;
        if virtual_files_count s v_file_path then mret None
        else
          '(dirs, parent) ← OpenExistingDirectories fuel (parent_path v_file_path);
          p_file ←
            (if is_vRoot parent then FindSmallestPFile
             else d ← virtual_dirs_at parent;
                  physical_files_at (Dir.p_file d);;
                  mret (Dir.p_file d));
          file_found ←
            (if stack_empty dirs && negb (is_vRoot (parent_path v_file_path))
             then OpenExistingFile fuel p_file v_file_path
             else mret false);
          p_file_path ← pfile_GetPath p_file;
          io_mutexes_lock p_file_path;;
          Create_dirs fuel dirs p_file p_file_path;;
          (if negb (file_found : bool) then
             CreateFile fuel (parent_path v_file_path) v_file_path p_file p_file_path
               FileType.file
           else
             file ← virtual_files_at v_file_path;
             let buf := zeroes page_size in
             '(data, n) ← pfile_Read p_file (Some buf) page_size
                            (wrap (File.page file * page_size + start));
             if negb (n =? page_size) then throw FileReadingError
             else
               len ← lift (GetFileLength (store_at 0 data buf));
               update_file out_of_range v_file_path (File.set_data_len len));;
          update_file out_of_range v_file_path (File.set_status openW);;
          virtual_files_at v_file_path;;
          mret (Some v_file_path)
  end.

(** The [while (read_bytes != len)] loop of [Read]. [f_page] is [f->page],
    [page] the local variable the links are read into. *)
Fixpoint Read_loop (fuel : nat) (p_file : path) (f_page : Z) (buff : list byte)
  (len read_bytes page : Z) : M (Z * list byte) :=
  match fuel with
  | O => diverge
  | S fuel' =>
      if read_bytes =? len then mret (read_bytes, buff)
      else
        '(link, _) ← pfile_Read p_file (Some (size_t_bytes page)) st_size
                       (wrap ((page + 1) * page_size - st_size + start));
        let page := Z_of_bytes (store_at 0 link (size_t_bytes page)) in
        '(data, n) ← pfile_Read p_file (Some (drop (Z.to_nat read_bytes) buff))
                       (Z.min (wrap (page_size - st_size)) (wrap (len - read_bytes)))
                       (wrap (f_page * page_size + start + st_size));
        Read_loop fuel' p_file f_page (store_at read_bytes data buff) len
          (wrap (read_bytes + n)) page
  end.

(** Returns the count and what the caller's buffer holds afterwards. *)
Definition Read (fuel : nat) (f : option string) (buff : option (list byte)) (len : Z)
  : M (Z * option (list byte)) :=
  match f, buff with
  | None, _ => mret (0, buff)
  | Some _, None => mret (0, buff)
  | Some h, Some b =>
      if len =? 0 then mret (0, buff)
      else
        file ← deref h;
        if negb (FileStatus_eqb (File.status file) openR) then mret (0, buff)
        else
          let p_file := File.p_file file in
          physical_files_at p_file;;
          let len := if len <=? File.data_len file then len else File.data_len file in
          if len <=? wrap (page_size - st_size - st_size) then
            '(data, n) ← pfile_Read p_file buff len
                           (wrap (File.page file * page_size + start + st_size));
            mret (n, Some (store_at 0 data b))
          else
            '(data, read_bytes) ← pfile_Read p_file buff (wrap (page_size - st_size - st_size))
                                    (wrap (File.page file * page_size + start + st_size));
            '(read_bytes, b) ← Read_loop fuel p_file (File.page file) (store_at 0 data b)
                                 len read_bytes (File.page file);
            mret (read_bytes, Some b)
  end.

Definition Write (fuel : nat) (f : option string) (buff : option (list byte)) (len : Z)
  : M Z :=
  match f, buff with
  | None, _ => mret 0
  | Some _, None => mret 0
  | Some h, Some b =>
      if len =? 0 then mret 0
      else
        file ← deref h;
        if negb (FileStatus_eqb (File.status file) openW) then mret 0
        else
          let p_file := File.p_file file in
          physical_files_at p_file;;
          written_bytes ← WriteToFile fuel b p_file (File.p_file file) len (File.page file)
                            (wrap (File.data_len file mod wrap (page_size - st_size) + st_size))
                            true;
          update_file undefined_behaviour h
            (fun f => File.set_data_len (wrap (File.data_len f + written_bytes)) f);;
          file ← deref h;
          SetFileLength p_file (File.page file) (File.data_len file);;
          mret written_bytes
  end.

(** A handle whose entry was erased finds its path no longer in
    [virtual_files]. *)
Definition Close (f : option string) : M unit :=
  match f with
  | None => mret tt
  | Some h =>
      s ← get;
      match virtual_files s !! h with
      | None => mret tt
      | Some file =>
          if negb (virtual_files_count s (File.name file)) then mret tt
          else
            let erase : M unit :=
              lock_guard editing_files_mutex;;
              modify (fun s => set_virtual_files (delete (File.name file) (virtual_files s)) s) in
            if negb (File.readers file =? 0) then
              update_file undefined_behaviour h
                (fun f => File.set_readers (wrap (File.readers f - 1)) f);;
              file ← deref h;
              if negb (File.readers file =? 0) then mret tt else erase
            else erase
      end
  end.

End VFS.

(** * Vocabulary of the statements *)

#[export] Instance byte_eq_dec : EqDecision byte := Byte.byte_eq_dec.

(** The calls into backing files that a trace records. *)
Definition is_call (e : event) : bool :=
  match e with
  | Lock _ => false
  | CallRead _ _ _ => true
  | CallWrite _ _ _ => true
  end.

Definition calls (t : list event) : list event := List.filter is_call t.

(** The state after [std::lock_guard lock(m)] and nothing else. *)
Definition locked (m : mutex) (s : VFS) : VFS := set_trace (trace s ++ [Lock m]) s.

(** The size a [PhysicalFile] tracks is the size of its host file. The
    constructor establishes this and [PFile.Write] keeps it. *)
Definition pf_wf (f : PhysicalFile) : Prop := file_size f = zlen (content f).

(** The contract violations [Read] and [Write] answer with 0; [required] is
    the mode the operation needs. *)
Definition soft_violation (required : FileStatus) (s : VFS) (f : option string)
  (buff : option (list byte)) (len : Z) : Prop :=
  f = None ∨ buff = None ∨ len = 0 ∨
  ∃ h file, f = Some h ∧ virtual_files s !! h = Some file ∧ File.status file ≠ required.

(** If the call returns, its result and final state satisfy [Q]. *)
Definition post {A} (m : M A) (s : VFS) (Q : A → VFS → Prop) : Prop :=
  match m s with
  | Ok (a, s') => Q a s'
  | Throw _ => True
  | Diverge => True
  end.

(** Every return of [m] leaves a state related to the initial one. *)
Definition preserves (R : relation VFS) {A} (m : M A) : Prop :=
  ∀ s, post m s (fun _ s' => R s s').

Definition same_files : relation VFS :=
  fun s s' => virtual_files s' = virtual_files s.

(** Two ways the index of open files may change, up to the entry under
    [v] when [v] is a key. [keeps v]: entries stay, with their name and,
    except for the entry under [v], with their status; a new entry is named
    after its key. [grows v]: moreover reader counts stay, and a new entry
    has no reader. *)
Definition grows (v : option string) : relation VFS := fun s s' => ∀ k,
  match virtual_files s !! k with
  | Some f => ∃ f', virtual_files s' !! k = Some f' ∧ File.name f' = File.name f
                    ∧ File.readers f' = File.readers f
                    ∧ (v ≠ Some k → File.status f' = File.status f)
  | None => ∀ f', virtual_files s' !! k = Some f' → File.name f' = k ∧ File.readers f' = 0
  end.

Definition keeps (v : option string) : relation VFS := fun s s' => ∀ k,
  match virtual_files s !! k with
  | Some f => ∃ f', virtual_files s' !! k = Some f' ∧ File.name f' = File.name f
                    ∧ (v ≠ Some k → File.status f' = File.status f)
  | None => ∀ f', virtual_files s' !! k = Some f' → File.name f' = k
  end.

#[export] Instance same_files_preorder : PreOrder same_files.
Proof. split; [done|]. unfold same_files. intros x y z H1 H2. congruence. Qed.

#[export] Instance grows_preorder v : PreOrder (grows v).
Proof.
  split.
  - intros s k. destruct (virtual_files s !! k) eqn:E; [by eexists|]. congruence.
  - intros x y z H1 H2 k. specialize (H1 k). specialize (H2 k).
    destruct (virtual_files x !! k) as [f|].
    + destruct H1 as (f' & E1 & ? & ? & Hs1). rewrite E1 in H2.
      destruct H2 as (f'' & E2 & ? & ? & Hs2). exists f''. split; [done|].
      split; [congruence|]. split; [congruence|].
      intros Hv. rewrite Hs2, Hs1; done.
    + destruct (virtual_files y !! k) as [f'|].
      * destruct (H1 f' eq_refl) as [? ?]. intros f'' E.
        destruct H2 as (g & E2 & ? & ? & _).
        rewrite E in E2. injection E2 as <-. split; congruence.
      * done.
Qed.

#[export] Instance keeps_preorder v : PreOrder (keeps v).
Proof.
  split.
  - intros s k. destruct (virtual_files s !! k) eqn:E; [by eexists|]. congruence.
  - intros x y z H1 H2 k. specialize (H1 k). specialize (H2 k).
    destruct (virtual_files x !! k) as [f|].
    + destruct H1 as (f' & E1 & ? & Hs1). rewrite E1 in H2.
      destruct H2 as (f'' & E2 & ? & Hs2). exists f''. split; [done|].
      split; [congruence|]. intros Hv. rewrite Hs2, Hs1; done.
    + destruct (virtual_files y !! k) as [f'|].
      * pose proof (H1 f' eq_refl). intros f'' E. destruct H2 as (g & E2 & ? & _).
        rewrite E in E2. injection E2 as <-. congruence.
      * done.
Qed.

(** Every open file is filed under its own name: what [InsertFile] sets up
    and no operation changes. *)
Definition names_ok (s : VFS) : Prop :=
  ∀ k f, virtual_files s !! k = Some f → File.name f = k.

(** [names_ok] carries over. *)
Definition names_kept : relation VFS := fun s s' => names_ok s → names_ok s'.

#[export] Instance names_kept_preorder : PreOrder names_kept.
Proof.
  split; [intros s H; exact H|]. intros x y z H1 H2 H. by apply H2, H1.
Qed.

(** ** Sequences of calls of the public interface *)

Inductive call :=
| call_Open (name : option string)
| call_Create (name : option string)
| call_Read (f : option string) (buff : option (list byte)) (len : Z)
| call_Write (f : option string) (buff : option (list byte)) (len : Z)
| call_Close (f : option string).

Definition run_call (page_size : Z) (fuel : nat) (c : call) : M unit :=
  match c with
  | call_Open name => Open page_size fuel name;; mret tt
  | call_Create name => Create page_size fuel name;; mret tt
  | call_Read f buff len => Read page_size fuel f buff len;; mret tt
  | call_Write f buff len => Write page_size fuel f buff len;; mret tt
  | call_Close f => Close f
  end.

Fixpoint run_calls (page_size : Z) (fuel : nat) (cs : list call) : M unit :=
  match cs with
  | [] => mret tt
  | c :: cs' => run_call page_size fuel c;; run_calls page_size fuel cs'
  end.

(** [c] is [Close] on the handle [h]. *)
Definition closes (h : string) (c : call) : bool :=
  match c with
  | call_Close (Some h') => String.eqb h' h
  | _ => false
  end.

(** ** Page alignment of the backing files *)

(** [(size(b) - W) mod PAGE_SIZE == 0] for every backing file [b]. *)
Definition page_aligned (page_size : Z) (s : VFS) : bool :=
  forallb (fun pf => (PFile.GetSize (snd pf) - st_size) mod page_size =? 0)
    (physical_files s).

(** ** The directory records of a backing file, as the layout describes them *)

(** [file_header]: the first [st_size] bytes. *)
Definition file_header (c : list byte) : Z := Z_of_bytes (take (Z.to_nat st_size) c).

Definition is_dir (r : Info.t) : bool :=
  Byte.eqb (Info.type r) (FileType.char FileType.dir).

(** The entries [rs] add to the directory index, in order: every record of
    type [dir] maps its name to its page in the backing file [path]. *)
Definition dir_entries (path : string) (rs : list Info.t) : list (string * Dir.t) :=
  map (fun r => (Info.name r, Dir.mk path (Info.page r))) (List.filter is_dir rs).

Section Layout.
Variable page_size : Z.

(** Page [i] of a backing file: [page_size] bytes behind the header. *)
Definition page_of (c : list byte) (i : Z) : list byte :=
  take (Z.to_nat page_size) (drop (Z.to_nat (st_size + i * page_size)) c).

Definition page_in_file (c : list byte) (i : Z) : Prop :=
  0 ≤ i ∧ st_size + (i + 1) * page_size ≤ zlen c.

(** The metadata record that starts at [pos]: a type byte that is not 0, the
    length of the name, the name, and the page; with the position behind
    it. *)
Definition record_at (pg : list byte) (pos : Z) : option (Info.t * Z) :=
  type ← pg !! Z.to_nat pos;
  if Byte.eqb type x00 then None
  else
    name_size ← read_size_t pg (pos + 1);
    page ← read_size_t pg (pos + 1 + st_size + name_size);
    Some ({| Info.type := type;
             Info.name := string_of_list_byte
                            (take (Z.to_nat name_size)
                               (drop (Z.to_nat (pos + 1 + st_size)) pg));
             Info.page := page |},
          pos + 1 + st_size + name_size + st_size).

(** Records pack from [pos] on; a type byte of 0 ends them, and so does
    running into the link at the end of the page. *)
Inductive page_records (pg : list byte) : Z → list Info.t → Prop :=
| records_end pos :
    0 ≤ pos → pg !! Z.to_nat pos = Some x00 → page_records pg pos []
| records_full pos :
    page_size - st_size ≤ pos → page_records pg pos []
| records_cons pos r next rs :
    0 ≤ pos < page_size - st_size →
    record_at pg pos = Some (r, next) →
    page_records pg next rs →
    page_records pg pos (r :: rs).

(** The records of the chain of pages that starts at page [i]. *)
Inductive chain_records (c : list byte) : Z → list Info.t → Prop :=
| chain_last i rs :
    page_in_file c i →
    page_records (page_of c i) 0 rs →
    read_size_t (page_of c i) (page_size - st_size) = Some 0 →
    chain_records c i rs
| chain_next i j rs rs' :
    page_in_file c i →
    page_records (page_of c i) 0 rs →
    read_size_t (page_of c i) (page_size - st_size) = Some j →
    0 < j →
    chain_records c j rs' →
    chain_records c i (rs ++ rs').

End Layout.

Definition insert_all (es : list (string * Dir.t)) (m : gmap string Dir.t)
  : gmap string Dir.t :=
  foldl (fun m e => <[e.1 := e.2]> m) m es.

(** No name occurs twice, and none is in the index yet. *)
Definition fresh_entries (es : list (string * Dir.t)) (m : gmap string Dir.t) : Prop :=
  NoDup es.*1 ∧ ∀ k, k ∈ es.*1 → m !! k = None.

(** ** The end-to-end scenarios *)

Module Scenario.

(** [PAGE_SIZE = 4096], [W = 8], backing files [1.vfs .. 5.vfs], none of
    which exists before the VFS is constructed. *)
Definition page_size : Z := 4096.
Definition max_files : Z := 5.
Definition fuel : nat := 64.

Definition backing : list (string * list byte) :=
  [("/vfs/1.vfs"%string, []); ("/vfs/2.vfs"%string, []); ("/vfs/3.vfs"%string, []);
   ("/vfs/4.vfs"%string, []); ("/vfs/5.vfs"%string, [])].

(** The state the calls [cs] leave behind on a newly constructed VFS. *)
Definition after (cs : list call) : outcome VFS :=
  s ← VFS_new max_files page_size fuel backing;
  '(_, s') ← run_calls page_size fuel cs s;
  mret s'.

Definition state_after (cs : list call) : VFS :=
  match after cs with
  | Ok s => s
  | _ => VFS_members
  end.

(** [Create(p); Write(h, D); Close(h); h' = Open(p); Read(h', out, |D|)]:
    the two counts and [out]. *)
Definition round_trip (p : string) (D : list byte)
  : outcome (Z * Z * option (list byte)) :=
  s ← VFS_new max_files page_size fuel backing;
  '(r, _) ← (h ← Create page_size fuel (Some p);
             written ← Write page_size fuel h (Some D) (zlen D);
             Close h;;
             h' ← Open page_size fuel (Some p);
             '(read, out) ← Read page_size fuel h' (Some (zeroes (zlen D))) (zlen D);
             mret (written, read, out)) s;
  mret r.

(** Whether the backing files are page aligned after construction, after
    [Create(p)] and after [Write(h, D)]. *)
Definition alignment (p : string) (D : list byte) : outcome (bool * bool * bool) :=
  s0 ← VFS_new max_files page_size fuel backing;
  '(h, s1) ← Create page_size fuel (Some p) s0;
  '(_, s2) ← Write page_size fuel h (Some D) (zlen D) s1;
  mret (page_aligned page_size s0, page_aligned page_size s1, page_aligned page_size s2).

Definition hello : list byte := list_byte_of_string "Hello world!".

(** 4081 bytes, one more than the payload of a first page; the first and
    the last byte differ. *)
Definition data : list byte := x01 :: replicate 4079 x02 ++ [x03].

(** The handle of ["/x/y"] after [Create("/x/y")]. *)
Definition write_handle : File.t :=
  {| File.p_file := "/vfs/1.vfs"; File.name := "/x/y"; File.data_len := 0;
     File.page := 2; File.status := openW; File.readers := 0 |}.

(** The handle of ["/a/b"] once twelve bytes are written and it is opened
    for reading. *)
Definition read_handle : File.t :=
  {| File.p_file := "/vfs/1.vfs"; File.name := "/a/b"; File.data_len := 12;
     File.page := 2; File.status := openR; File.readers := 1 |}.

Definition written_and_opened : list call :=
  [call_Create (Some "/a/b"%string);
   call_Write (Some "/a/b"%string) (Some hello) 12;
   call_Close (Some "/a/b"%string);
   call_Open (Some "/a/b"%string)].

(** The first backing file in a state. *)
Definition first_file (s : VFS) : PhysicalFile :=
  default (PFile.open "/vfs/1.vfs" []) (pf_lookup "/vfs/1.vfs" (physical_files s)).

(** A four byte host file. *)
Definition four_bytes : PhysicalFile := PFile.open "/vfs/1.vfs" [x01; x02; x03; x04].

(** A new VFS, one with a writer on ["/x/y"], and one with a reader on
    ["/a/b"]. *)
Definition constructed : VFS := state_after [].
Definition with_writer : VFS := state_after [call_Create (Some "/x/y"%string)].
Definition with_reader : VFS := state_after written_and_opened.

(** Calls that go between two [Create("/x/y")]: none of them closes the
    handle of ["/x/y"]. *)
Definition in_between : list call :=
  [call_Write (Some "/x/y"%string) (Some hello) 12;
   call_Open (Some "/x/y"%string);
   call_Create (Some "/x/z"%string);
   call_Close (Some "/x/z"%string)].

End Scenario.

(** ** A small backing file written out by hand *)

Module Sample.

Definition page_size : Z := 64.

(** The bytes of one metadata record. *)
Definition record (type : FileType.t) (name : string) (page : Z) : list byte :=
  FileType.char type :: size_t_bytes (zlen (list_byte_of_string name))
    ++ list_byte_of_string name ++ size_t_bytes page.

(** Page 0 holds a directory record, a file record and zero padding up to
    and including the link; pages 1 and 2 are empty. The header counts one
    file. *)
Definition page0 : list byte :=
  let records := record FileType.dir "/a" 1 ++ record FileType.file "/f" 2 in
  records ++ zeroes (page_size - zlen records).

Definition bytes : list byte :=
  size_t_bytes 1 ++ page0 ++ zeroes page_size ++ zeroes page_size.

Definition host : string := "/vfs/1.vfs".

Definition backing_file : PhysicalFile := PFile.open host bytes.

(** The VFS when [Init] starts on that file. *)
Definition opened : VFS :=
  set_io_mutexes [host] (set_physical_files [(host, backing_file)] VFS_members).

Definition records : list Info.t :=
  [ {| Info.type := FileType.char FileType.dir; Info.name := "/a"; Info.page := 1 |};
    {| Info.type := FileType.char FileType.file; Info.name := "/f"; Info.page := 2 |} ].

End Sample.

(** ** Calls through a [PFile&] *)

(** The state behind a call of [PhysicalFile::Write] through the key [p]
    that left the file [f']: the value under [p] is replaced, nothing else
    but the trace has changed. *)
Definition written (p : path) (f' : PhysicalFile) (s s' : VFS) : Prop :=
  physical_files s' = pf_update p f' (physical_files s) ∧
  virtual_files s' = virtual_files s ∧
  virtual_dirs s' = virtual_dirs s ∧
  io_mutexes s' = io_mutexes s ∧
  num_of_files s' = num_of_files s.

(** ** Records as [CreateFile] writes them *)

(** The query [FindFileInPage] looks for: type, length of the name, name. *)
Definition file_query (type : FileType.t) (file_name : path) : list byte :=
  FileType.char type :: size_t_bytes (zlen (list_byte_of_string file_name))
    ++ list_byte_of_string file_name.

(** [file_info] of [CreateFile]: the query followed by the page. *)
Definition file_info (type : FileType.t) (file : path) (next_page : Z) : list byte :=
  FileType.char type :: size_t_bytes (zlen (list_byte_of_string file))
    ++ list_byte_of_string file ++ size_t_bytes next_page.

(** The bytes [q] stand at offset [pos] of [l]. *)
Definition occurs_at (q l : list byte) (pos : Z) : Prop :=
  0 ≤ pos ∧ take (length q) (drop (Z.to_nat pos) l) = q.

(** Records pack from [pos] on, up to a type byte of 0 at [e]. *)
Inductive packed_until (pg : list byte) : Z → Z → Prop :=
| packed_end e :
    0 ≤ e → pg !! Z.to_nat e = Some x00 → packed_until pg e e
| packed_cons pos r next e :
    0 ≤ pos → record_at pg pos = Some (r, next) → packed_until pg next e →
    packed_until pg pos e.

(** ** Host files given to the constructor *)

(** No two of the paths are the same path. *)
Fixpoint paths_distinct (l : list path) : bool :=
  match l with
  | [] => true
  | p :: l' => negb (existsb (path_eqb p) l') && paths_distinct l'
  end.

(** A backing file as the constructor initialises it: a header of
    [st_size] zero bytes and one page of zero bytes. *)
Definition fresh_file (page_size : Z) (p : path) : PhysicalFile :=
  {| filepath := p; content := zeroes st_size ++ zeroes page_size;
     file_size := st_size + page_size |}.

(** * Reasoning about [M] *)

Ltac munfold :=
  unfold mbind, mret, M_bind, M_ret, outcome_bind, outcome_ret, get, modify, lift,
    throw, diverge, of_option in *.

Lemma FileStatus_eqb_eq a b : FileStatus_eqb a b = true <-> a = b.
Proof. destruct a, b; simpl; split; intros; congruence. Qed.

Lemma FileStatus_eqb_neq a b : a ≠ b -> FileStatus_eqb a b = false.
Proof. destruct a, b; simpl; intros; congruence. Qed.

Lemma calls_app t1 t2 : calls (t1 ++ t2) = calls t1 ++ calls t2.
Proof. apply List.filter_app. Qed.

Lemma GetSize_wf f : pf_wf f → PFile.GetSize f = zlen (content f).
Proof.
  unfold pf_wf, PFile.GetSize. intros ->.
  by destruct (Z.eqb_spec (zlen (content f)) 0).
Qed.

Lemma post_ret {A} (a : A) s Q : Q a s → post (mret a) s Q.
Proof. done. Qed.

Lemma post_bind {A B} (m : M A) (k : A → M B) s Q :
  post m s (fun a s1 => post (k a) s1 Q) → post (m ≫= k) s Q.
Proof. unfold post, mbind, M_bind. destruct (m s) as [[a s1]|e|]; done. Qed.

Lemma post_mono {A} (m : M A) s (Q Q' : A → VFS → Prop) :
  post m s Q → (∀ a s', Q a s' → Q' a s') → post m s Q'.
Proof. unfold post. destruct (m s) as [[a s1]|e|]; auto. Qed.

Lemma post_inv {A} (m : M A) s Q a s' : post m s Q → m s = Ok (a, s') → Q a s'.
Proof. unfold post. intros H E. by rewrite E in H. Qed.

Lemma bind_Ok {A B} (m : M A) (k : A → M B) s a s1 :
  m s = Ok (a, s1) → (m ≫= k) s = k a s1.
Proof. intros E. unfold mbind, M_bind. by rewrite E. Qed.

Lemma post_bind_any {A B} (m : M A) (k : A → M B) s Q :
  (∀ a s1, post (k a) s1 Q) → post (m ≫= k) s Q.
Proof.
  intros H. apply post_bind. unfold post at 1.
  destruct (m s) as [[a s1]|e|]; auto.
Qed.

Lemma post_lock_guard_bind {B} mu (k : unit → M B) s Q :
  post (k tt) (locked mu s) Q → post (lock_guard mu ≫= k) s Q.
Proof. intros H. by apply post_bind. Qed.

Lemma post_get_bind {B} (k : VFS → M B) s Q :
  post (k s) s Q → post (get ≫= k) s Q.
Proof. intros H. by apply post_bind. Qed.

Lemma post_update_file_bind {B} e v g (k : unit → M B) s Q :
  (∀ f, virtual_files s !! v = Some f →
        post (k tt) (set_virtual_files (<[v := g f]> (virtual_files s)) s) Q) →
  post (update_file e v g ≫= k) s Q.
Proof.
  intros H. apply post_bind. unfold post at 1, update_file. munfold.
  destruct (virtual_files s !! v) as [f|]; [|done]. by apply H.
Qed.

Lemma post_virtual_files_at_bind {B} v (k : File.t → M B) s Q :
  (∀ f, virtual_files s !! v = Some f → post (k f) s Q) →
  post (virtual_files_at v ≫= k) s Q.
Proof.
  intros H. apply post_bind. unfold post at 1, virtual_files_at. munfold.
  destruct (virtual_files s !! v) as [f|]; [|done]. by apply H.
Qed.

Lemma post_deref_bind {B} v (k : File.t → M B) s Q :
  (∀ f, virtual_files s !! v = Some f → post (k f) s Q) →
  post (deref v ≫= k) s Q.
Proof.
  intros H. apply post_bind. unfold post at 1, deref. munfold.
  destruct (virtual_files s !! v) as [f|]; [|done]. by apply H.
Qed.

(** ** Relations every return preserves *)

Section Preserves.
Context (R : relation VFS) `{!PreOrder R}.

Lemma preserves_ret {A} (a : A) : preserves R (mret a).
Proof. intros s. unfold post. by munfold. Qed.

Lemma preserves_bind {A B} (m : M A) (k : A → M B) :
  preserves R m → (∀ a, preserves R (k a)) → preserves R (m ≫= k).
Proof.
  intros Hm Hk s. apply post_bind. eapply post_mono; [apply Hm|].
  intros a s1 H1. simpl in H1. eapply post_mono; [apply Hk|].
  intros b s2 H2. simpl in H2. by etrans.
Qed.

Lemma preserves_get : preserves R get.
Proof. intros s. unfold post. by munfold. Qed.

Lemma preserves_lift {A} (o : outcome A) : preserves R (lift o).
Proof. intros s. unfold post. munfold. by destruct o. Qed.

Lemma preserves_throw {A} e : preserves R (@throw A e).
Proof. by intros s. Qed.

Lemma preserves_diverge {A} : preserves R (@diverge A).
Proof. by intros s. Qed.

Lemma preserves_modify f : (∀ s, R s (f s)) → preserves R (modify f).
Proof. intros H s. apply H. Qed.
End Preserves.

Lemma preserves_weaken (R R' : relation VFS) {A} (m : M A) :
  (∀ s s', R s s' → R' s s') → preserves R m → preserves R' m.
Proof. intros H Hm s. eapply post_mono; [apply Hm|]. simpl. auto. Qed.

Lemma preserves_post_mono (R : relation VFS) {A} (m : M A) s (Q : A → VFS → Prop) :
  preserves R m → (∀ a s', R s s' → Q a s') → post m s Q.
Proof. intros Hm H. eapply post_mono; [apply Hm|]. simpl. auto. Qed.

Lemma same_files_grows v s s' : same_files s s' → grows v s s'.
Proof.
  unfold same_files. intros E k. rewrite E.
  destruct (virtual_files s !! k) eqn:Ek; [by eexists|]. congruence.
Qed.

Lemma grows_keeps v s s' : grows v s s' → keeps v s s'.
Proof.
  intros H k. specialize (H k). destruct (virtual_files s !! k).
  - destruct H as (f' & ? & ? & ? & ?). by exists f'.
  - intros f' E. by destruct (H f' E).
Qed.

Lemma same_files_keeps v s s' : same_files s s' → keeps v s s'.
Proof. intros. by apply grows_keeps, same_files_grows. Qed.

Lemma keeps_names_ok v s s' : keeps v s s' → names_ok s → names_ok s'.
Proof.
  intros H Hs k f' E. specialize (H k). destruct (virtual_files s !! k) as [f|] eqn:Ek.
  - destruct H as (g & Eg & Hn & _). rewrite E in Eg. injection Eg as <-.
    rewrite Hn. by apply Hs.
  - by apply H.
Qed.

Lemma keeps_names_kept v s s' : keeps v s s' → names_kept s s'.
Proof. intros H Hs. by apply (keeps_names_ok v s). Qed.

(** What [keeps v] says about an entry that is not the one under [v]. *)
Lemma keeps_status v s s' k f :
  keeps v s s' → virtual_files s !! k = Some f → v ≠ Some k →
  ∃ f', virtual_files s' !! k = Some f' ∧ File.status f' = File.status f.
Proof.
  intros H E Hv. specialize (H k). rewrite E in H.
  destruct H as (f' & E' & _ & Hst). exists f'. auto.
Qed.

Ltac pres_step :=
  match goal with
  | |- preserves _ (mret _) => apply preserves_ret; apply _
  | |- preserves _ (_ ≫= _) => apply preserves_bind; [apply _ | | intros ?]
  | |- preserves _ get => apply preserves_get; apply _
  | |- preserves _ (lift _) => apply preserves_lift; apply _
  | |- preserves _ (throw _) => apply preserves_throw
  | |- preserves _ diverge => apply preserves_diverge
  | |- preserves _ (match ?x with _ => _ end) => destruct x
  | |- preserves _ (modify _) => apply preserves_modify; intros ?
  end.

Create HintDb pres discriminated.

Ltac pres :=
  repeat first
    [ pres_step
    | solve [eauto with pres]
    | solve [apply (preserves_weaken same_files); [apply same_files_grows | eauto with pres]]
    | solve [apply (preserves_weaken same_files); [apply same_files_keeps | eauto with pres]]
    | solve [eapply (preserves_weaken (grows _)); [apply grows_keeps | eauto with pres]] ].

Lemma log_same_files e : preserves same_files (log e).
Proof. unfold log. pres. done. Qed.
#[export] Hint Resolve log_same_files : pres.

Lemma lock_guard_same_files m : preserves same_files (lock_guard m).
Proof. unfold lock_guard. pres. Qed.
#[export] Hint Resolve lock_guard_same_files : pres.

Lemma physical_files_at_same_files p : preserves same_files (physical_files_at p).
Proof. unfold physical_files_at. pres. Qed.

Lemma virtual_dirs_at_same_files p : preserves same_files (virtual_dirs_at p).
Proof. unfold virtual_dirs_at. pres. Qed.

Lemma virtual_files_at_same_files p : preserves same_files (virtual_files_at p).
Proof. unfold virtual_files_at. pres. Qed.

Lemma deref_same_files p : preserves same_files (deref p).
Proof. unfold deref. pres. Qed.
#[export] Hint Resolve physical_files_at_same_files virtual_dirs_at_same_files
  virtual_files_at_same_files deref_same_files : pres.

Lemma pfile_GetSize_same_files p : preserves same_files (pfile_GetSize p).
Proof. unfold pfile_GetSize. pres. Qed.

Lemma pfile_GetPath_same_files p : preserves same_files (pfile_GetPath p).
Proof. unfold pfile_GetPath. pres. Qed.

Lemma pfile_Read_same_files p b l o : preserves same_files (pfile_Read p b l o).
Proof. unfold pfile_Read. pres. Qed.

Lemma pfile_Write_same_files p b l o : preserves same_files (pfile_Write p b l o).
Proof. unfold pfile_Write. pres. done. Qed.
#[export] Hint Resolve pfile_GetSize_same_files pfile_GetPath_same_files
  pfile_Read_same_files pfile_Write_same_files : pres.

Lemma pfile_Append_same_files p b l : preserves same_files (pfile_Append p b l).
Proof. unfold pfile_Append. pres. Qed.

Lemma io_mutexes_lock_same_files p : preserves same_files (io_mutexes_lock p).
Proof. unfold io_mutexes_lock. pres. Qed.

Lemma FindSmallestPFile_same_files : preserves same_files FindSmallestPFile.
Proof. unfold FindSmallestPFile. pres. Qed.

Lemma InsertDir_same_files n pg p : preserves same_files (InsertDir n pg p).
Proof. unfold InsertDir. pres. done. Qed.
#[export] Hint Resolve pfile_Append_same_files io_mutexes_lock_same_files
  FindSmallestPFile_same_files InsertDir_same_files : pres.

Lemma update_file_keeps v e k g :
  (∀ f, File.name (g f) = File.name f ∧ (v ≠ Some k → File.status (g f) = File.status f)) →
  preserves (keeps v) (update_file e k g).
Proof.
  intros Hg s. unfold post, update_file. munfold.
  destruct (virtual_files s !! k) as [f|] eqn:E; [|done]. simpl.
  intros k'. destruct (decide (k = k')) as [<-|Hne].
  - rewrite E. exists (g f). simpl. rewrite lookup_insert_eq. destruct (Hg f). done.
  - simpl. rewrite lookup_insert_ne by done.
    destruct (virtual_files s !! k') eqn:E'; [by eexists|]. congruence.
Qed.

Lemma update_file_grows v e k g :
  (∀ f, File.name (g f) = File.name f ∧ File.readers (g f) = File.readers f ∧
        (v ≠ Some k → File.status (g f) = File.status f)) →
  preserves (grows v) (update_file e k g).
Proof.
  intros Hg s. unfold post, update_file. munfold.
  destruct (virtual_files s !! k) as [f|] eqn:E; [|done]. simpl.
  intros k'. destruct (decide (k = k')) as [<-|Hne].
  - rewrite E. exists (g f). simpl. rewrite lookup_insert_eq. destruct (Hg f) as (? & ? & ?).
    done.
  - simpl. rewrite lookup_insert_ne by done.
    destruct (virtual_files s !! k') eqn:E'; [by eexists|]. congruence.
Qed.

Lemma InsertFile_grows v n pg p : preserves (grows v) (InsertFile n pg p).
Proof.
  intros s. unfold post, InsertFile, lock_guard, log, virtual_files_count. munfold. simpl.
  destruct (virtual_files s !! n) eqn:E; [done|]. simpl.
  intros k. destruct (decide (n = k)) as [<-|Hne].
  - rewrite E. intros f'. simpl. rewrite lookup_insert_eq. by intros [= <-].
  - simpl. rewrite lookup_insert_ne by done.
    destruct (virtual_files s !! k) eqn:E'; [by eexists|]. congruence.
Qed.
#[export] Hint Resolve InsertFile_grows : pres.

(** The status is left alone, or the entry is the one under [v]. *)
Ltac status_kept := first [ intros _; reflexivity | intros H; by destruct H ].

#[export] Hint Extern 1 (preserves (grows _) (update_file _ _ _)) =>
  apply update_file_grows; intros ?; split; [reflexivity|split; [reflexivity|status_kept]]
  : pres.
#[export] Hint Extern 1 (preserves (keeps _) (update_file _ _ _)) =>
  apply update_file_keeps; intros ?; split; [reflexivity|status_kept] : pres.

Section Frames.
Variable page_size : Z.

Lemma SetNextPage_same_files p a b : preserves same_files (SetNextPage page_size p a b).
Proof. unfold SetNextPage. pres. Qed.

Lemma SetFileLength_same_files p a b : preserves same_files (SetFileLength page_size p a b).
Proof. unfold SetFileLength. pres. Qed.

Lemma CreateEmptyPage_same_files p : preserves same_files (CreateEmptyPage page_size p).
Proof. unfold CreateEmptyPage. pres. Qed.

Lemma IncrementNumOfFiles_same_files p : preserves same_files (IncrementNumOfFiles p).
Proof. unfold IncrementNumOfFiles. pres. done. Qed.
Hint Resolve SetNextPage_same_files SetFileLength_same_files CreateEmptyPage_same_files
  IncrementNumOfFiles_same_files : pres.

Lemma WriteToFile_loop_same_files fuel buf p len page w :
  preserves same_files (WriteToFile_loop page_size fuel buf p len page w).
Proof. revert w. induction fuel; intros w; simpl; pres. Qed.
Hint Resolve WriteToFile_loop_same_files : pres.

Lemma WriteToFile_same_files fuel buf p pp len page pos carry :
  preserves same_files (WriteToFile page_size fuel buf p pp len page pos carry).
Proof. unfold WriteToFile. pres. Qed.
Hint Resolve WriteToFile_same_files : pres.

Lemma CreateFile_walk_same_files fuel p page buf :
  preserves same_files (CreateFile_walk page_size fuel p page buf).
Proof. revert page buf. induction fuel; intros page buf; simpl; pres. Qed.
Hint Resolve CreateFile_walk_same_files : pres.

Lemma OpenExistingDirectories_same_files fuel p :
  preserves same_files (OpenExistingDirectories page_size fuel p).
Proof.
  assert (Hup : ∀ fuel p d, preserves same_files (OpenExistingDirectories_up fuel p d)).
  { clear. induction fuel; intros p d; simpl; pres. }
  assert (Hfind : ∀ fuel o t pg b,
            preserves same_files (OpenExistingDirectories_find page_size fuel o t pg b)).
  { clear. induction fuel; intros o t pg b; simpl; pres. }
  assert (Hopen : ∀ d fuel o f pg b,
            preserves same_files (OpenExistingDirectories_open page_size fuel o d f pg b)).
  { induction d; intros; simpl; pres. }
  unfold OpenExistingDirectories. pres.
Qed.
Hint Resolve OpenExistingDirectories_same_files : pres.

Lemma OpenExistingFile_grows v fuel p f :
  preserves (grows v) (OpenExistingFile page_size fuel p f).
Proof.
  assert (H : ∀ fuel p f pg b,
            preserves (grows v) (OpenExistingFile_loop page_size fuel p f pg b)).
  { clear. induction fuel; intros; simpl; pres. }
  unfold OpenExistingFile. pres.
Qed.
Hint Resolve OpenExistingFile_grows : pres.

Lemma CreateFile_grows v fuel a b c d t :
  preserves (grows v) (CreateFile page_size fuel a b c d t).
Proof. unfold CreateFile. pres. Qed.
Hint Resolve CreateFile_grows : pres.

Lemma Create_dirs_grows v fuel d a b :
  preserves (grows v) (Create_dirs page_size fuel d a b).
Proof. induction d; simpl; pres. Qed.
Hint Resolve Create_dirs_grows : pres.

Lemma Create_grows fuel name :
  preserves (grows (absolute <$> name)) (Create page_size fuel name).
Proof. destruct name; unfold Create; simpl; pres. Qed.

Lemma Open_keeps fuel name :
  preserves (keeps (absolute <$> name)) (Open page_size fuel name).
Proof. destruct name; unfold Open; simpl; pres. Qed.

Lemma Read_same_files fuel f b len : preserves same_files (Read page_size fuel f b len).
Proof.
  assert (H : ∀ fuel p fp b l r pg,
            preserves same_files (Read_loop page_size fuel p fp b l r pg)).
  { clear. induction fuel; intros; simpl; pres. }
  unfold Read. pres.
Qed.

Lemma Write_grows fuel f b len : preserves (grows None) (Write page_size fuel f b len).
Proof. unfold Write. pres. Qed.

(** [Open] on a path that has an entry leaves the entry's name and status
    alone. *)
Lemma Open_existing fuel name s file :
  virtual_files s !! absolute name = Some file →
  post (Open page_size fuel (Some name)) s (fun _ s' =>
    keeps None s s').
Proof.
  intros Hf. unfold Open.
  destruct (is_vRoot _ || is_vRoot _); [apply post_ret; reflexivity|].
  apply post_lock_guard_bind, post_get_bind. simpl. rewrite Hf.
  destruct (negb _); [apply post_ret; by apply same_files_keeps|].
  apply post_bind.
  eapply (preserves_post_mono (keeps None)).
  - apply update_file_keeps. intros ?. split; [reflexivity|]. intros _. reflexivity.
  - intros _ s' H. apply post_ret.
    etrans; [|exact H]. by apply same_files_keeps.
Qed.

(** A [Create] that hands out a handle found no entry under the path and
    leaves one in write mode. *)
Lemma Create_result fuel name s :
  post (Create page_size fuel (Some name)) s (fun r s' =>
    ∀ h, r = Some h →
      h = absolute name ∧ virtual_files s !! h = None ∧
      ∃ f, virtual_files s' !! h = Some f ∧ File.status f = openW).
Proof.
  unfold Create. set (v := absolute name).
  destruct (is_vRoot v || is_vRoot (parent_path v)); [by apply post_ret|].
  apply post_lock_guard_bind, post_get_bind.
  unfold virtual_files_count. simpl.
  destruct (virtual_files s !! v) eqn:Ev; [by apply post_ret|].
  apply post_bind_any; intros [dirs parent] s1.
  do 5 (apply post_bind_any; intros ? ?).
  apply post_bind_any; intros _ s_tail.
  apply post_update_file_bind; intros f Hf.
  apply post_virtual_files_at_bind; intros f'. simpl. rewrite lookup_insert_eq. intros [= <-].
  apply post_ret. intros h [= <-]. split; [done|]. split; [done|].
  eexists. simpl. rewrite lookup_insert_eq. done.
Qed.

End Frames.

(** With an entry under the path, [Create] gives up right behind the lock
    (or before it, for a path it rejects anyway). *)
Lemma Create_on_open_path page_size fuel name s :
  is_Some (virtual_files s !! absolute name) →
  Create page_size fuel (Some name) s = Ok (None, s) ∨
  Create page_size fuel (Some name) s = Ok (None, locked editing_files_mutex s).
Proof.
  intros [f Hf]. unfold Create.
  destruct (is_vRoot (absolute name) || is_vRoot (parent_path (absolute name))); [by left|].
  right. unfold lock_guard, log, virtual_files_count. munfold. simpl. by rewrite Hf.
Qed.

(** [Close] on another handle leaves the entry of [h] alone. *)
Lemma Close_keeps f s h file :
  names_ok s → f ≠ Some h → virtual_files s !! h = Some file →
  post (Close f) s (fun _ s' => names_ok s' ∧ virtual_files s' !! h = Some file).
Proof.
  intros Hs Hf Hfile. destruct f as [h'|]; [|by apply post_ret].
  assert (Hne : h' ≠ h) by congruence.
  unfold Close. apply post_get_bind.
  destruct (virtual_files s !! h') as [file'|] eqn:E; [|by apply post_ret].
  assert (Hn : File.name file' = h') by by apply Hs.
  rewrite Hn. unfold virtual_files_count. rewrite E. simpl.
  assert (Hdel : ∀ m : gmap string File.t,
            (∀ k f, m !! k = Some f → File.name f = k) →
            m !! h = Some file →
            post (lock_guard editing_files_mutex;;
                  modify (fun s0 => set_virtual_files (delete h' (virtual_files s0)) s0))
              (set_virtual_files m s)
              (fun _ s' => names_ok s' ∧ virtual_files s' !! h = Some file)).
  { intros m Hm Hh. unfold post, lock_guard, log. munfold. simpl. split.
    - intros k f. simpl. destruct (decide (h' = k)) as [<-|].
      + by rewrite lookup_delete_eq.
      + rewrite lookup_delete_ne by done. apply Hm.
    - simpl. by rewrite lookup_delete_ne. }
  destruct (File.readers file' =? 0); simpl.
  - replace s with (set_virtual_files (virtual_files s) s) at 1 by by destruct s.
    apply Hdel; [apply Hs | done].
  - apply post_update_file_bind. intros f0 Ef0. rewrite E in Ef0. injection Ef0 as <-.
    set (m := <[h' := _]> (virtual_files s)).
    assert (Hm : ∀ k f, m !! k = Some f → File.name f = k).
    { intros k f. subst m. destruct (decide (h' = k)) as [<-|].
      - rewrite lookup_insert_eq. by intros [= <-].
      - rewrite lookup_insert_ne by done. apply Hs. }
    assert (Hh : m !! h = Some file).
    { subst m. by rewrite lookup_insert_ne. }
    apply post_deref_bind. intros f1. simpl. fold m. subst m.
    rewrite lookup_insert_eq. intros [= <-]. simpl.
    set (m := <[h' := _]> (virtual_files s)) in *.
    destruct (wrap (File.readers file' - 1) =? 0); simpl.
    + apply (Hdel m Hm Hh).
    + apply post_ret. done.
Qed.

(** A call that is not [Close] on [h] leaves the entry under [h] in place,
    with its status. *)
Lemma run_call_keeps page_size fuel c s h file :
  names_ok s → virtual_files s !! h = Some file → closes h c = false →
  post (run_call page_size fuel c) s (fun _ s' =>
    names_ok s' ∧
    ∃ file', virtual_files s' !! h = Some file' ∧ File.status file' = File.status file).
Proof.
  intros Hs Hh Hc.
  assert (Hkeeps : ∀ A (m : M A) v, v ≠ Some h → preserves (keeps v) m →
            post (m;; mret tt) s (fun _ s' =>
              names_ok s' ∧
              ∃ file', virtual_files s' !! h = Some file'
                       ∧ File.status file' = File.status file)).
  { intros A m v Hv Hm. apply post_bind. eapply preserves_post_mono; [apply Hm|].
    intros a s' He. apply post_ret. split.
    - by apply (keeps_names_ok v s).
    - by apply (keeps_status v s). }
  destruct c as [name|name|f b len|f b len|f]; simpl.
  - destruct name as [name|]; [|by apply (Hkeeps _ _ None), (Open_keeps page_size fuel None)].
    destruct (decide (absolute name = h)) as [<-|Hne].
    + apply post_bind. eapply post_mono; [by eapply Open_existing|].
      simpl. intros _ s' He. apply post_ret. split.
      * by apply (keeps_names_ok None s).
      * by apply (keeps_status None s).
    + apply (Hkeeps _ _ (Some (absolute name))); [congruence|].
      apply (Open_keeps page_size fuel (Some name)).
  - destruct name as [name|].
    2:{ apply (Hkeeps _ _ None); [done|].
        apply (preserves_weaken (grows None)); [apply grows_keeps|].
        apply (Create_grows page_size fuel None). }
    destruct (decide (absolute name = h)) as [<-|Hne].
    + apply post_bind. unfold post at 1.
      destruct (Create_on_open_path page_size fuel name s (mk_is_Some _ _ Hh)) as [E|E];
        rewrite E; apply post_ret; (split; [done|by exists file]).
    + apply (Hkeeps _ _ (Some (absolute name))); [congruence|].
      apply (preserves_weaken (grows (Some (absolute name)))); [apply grows_keeps|].
      apply (Create_grows page_size fuel (Some name)).
  - apply (Hkeeps _ _ None); [done|].
    apply (preserves_weaken same_files); [apply same_files_keeps | apply Read_same_files].
  - apply (Hkeeps _ _ None); [done|].
    apply (preserves_weaken (grows None)); [apply grows_keeps | apply Write_grows].
  - eapply post_mono; [apply (Close_keeps f s h file Hs)|].
    + intros ->. simpl in Hc. by rewrite String.eqb_refl in Hc.
    + done.
    + simpl. intros _ s' [? ?]. split; [done|]. by exists file.
Qed.

Lemma run_calls_keeps page_size fuel cs s h file :
  names_ok s → virtual_files s !! h = Some file →
  forallb (fun c => negb (closes h c)) cs = true →
  post (run_calls page_size fuel cs) s (fun _ s' =>
    names_ok s' ∧
    ∃ file', virtual_files s' !! h = Some file' ∧ File.status file' = File.status file).
Proof.
  revert s file. induction cs as [|c cs IH]; intros s file Hs Hh Hcs; simpl.
  - apply post_ret. split; [done|]. by exists file.
  - simpl in Hcs. apply andb_prop in Hcs as [Hc Hcs]. apply negb_true_iff in Hc.
    apply post_bind. eapply post_mono; [by eapply run_call_keeps|].
    simpl. intros _ s1 (Hs1 & file1 & Hh1 & Hst1).
    eapply post_mono; [by eapply IH|].
    simpl. intros _ s2 (Hs2 & file2 & Hh2 & Hst2). split; [done|].
    exists file2. split; [done|]. congruence.
Qed.

Lemma names_ok_empty s : virtual_files s = ∅ → names_ok s.
Proof. intros E k f. rewrite E. by rewrite lookup_empty. Qed.



Lemma Close_names_ok f : preserves names_kept (Close f).
Proof.
  unfold Close. pres.
  all: try (apply (preserves_weaken (keeps None)); [apply keeps_names_kept|];
            apply update_file_keeps; intros ?; split; [reflexivity|intros _; reflexivity]).
  all: try (apply (preserves_weaken same_files);
            [intros ? ? ?; by apply (keeps_names_kept None), same_files_keeps|]; pres).
  all: intros Hs k f1; simpl;
    match goal with |- delete ?n _ !! _ = _ → _ =>
      destruct (decide (n = k)) as [<-|];
        [by rewrite lookup_delete_eq | rewrite lookup_delete_ne by done; apply Hs]
    end.
Qed.

Lemma run_calls_names_ok page_size fuel cs s s' :
  names_ok s → run_calls page_size fuel cs s = Ok (tt, s') → names_ok s'.
Proof.
  intros Hs Hrun.
  assert (H : preserves names_kept (run_calls page_size fuel cs)).
  { clear. induction cs as [|c cs IH]; simpl; [pres|].
    apply preserves_bind; [apply _| |intros _; apply IH].
    destruct c as [name|name|f b len|f b len|f]; simpl.
    - apply preserves_bind; [apply _| |intros ?; pres].
      apply (preserves_weaken (keeps (absolute <$> name)));
        [apply keeps_names_kept|apply Open_keeps].
    - apply preserves_bind; [apply _| |intros ?; pres].
      apply (preserves_weaken (grows (absolute <$> name)));
        [intros ? ? ?; by eapply keeps_names_kept, grows_keeps|apply Create_grows].
    - apply preserves_bind; [apply _| |intros ?; pres].
      apply (preserves_weaken same_files);
        [intros ? ? ?; by apply (keeps_names_kept None), same_files_keeps
        |apply Read_same_files].
    - apply preserves_bind; [apply _| |intros ?; pres].
      apply (preserves_weaken (grows None));
        [intros ? ? ?; by eapply keeps_names_kept, grows_keeps|apply Write_grows].
    - apply Close_names_ok. }
  by apply (post_inv _ _ _ _ _ (H s) Hrun).
Qed.

(** ** Decoding pages *)

Lemma Z_of_byte_range b : 0 ≤ Z_of_byte b < 256.
Proof.
  unfold Z_of_byte. pose proof (Byte.to_N_bounded b). lia.
Qed.

Lemma Z_of_bytes_range l : 0 ≤ Z_of_bytes l < 256 ^ zlen l.
Proof.
  induction l as [|b l IH]; simpl.
  - unfold zlen. simpl. lia.
  - pose proof (Z_of_byte_range b).
    replace (zlen (b :: l)) with (Z.succ (zlen l)) by (unfold zlen; simpl; lia).
    rewrite Z.pow_succ_r by (unfold zlen; lia). lia.
Qed.

Lemma read_size_t_Some b pos v :
  read_size_t b pos = Some v →
  0 ≤ pos ∧ pos + st_size ≤ zlen b ∧ 0 ≤ v < size_modulus.
Proof.
  unfold read_size_t.
  destruct (Z.leb_spec 0 pos); simpl; [|done].
  destruct (Z.leb_spec (pos + st_size) (zlen b)); [|done].
  intros [= <-]. split; [done|]. split; [done|].
  match goal with |- _ ≤ Z_of_bytes ?l < _ => pose proof (Z_of_bytes_range l) as H1;
    assert (zlen l = st_size) as H2 end.
  { unfold zlen in *. rewrite length_take, length_drop. unfold st_size in *. lia. }
  rewrite H2 in H1. exact H1.
Qed.

Lemma wrap_small x : 0 ≤ x < size_modulus → wrap x = x.
Proof. intros. unfold wrap. by apply Z.mod_small. Qed.

Section LayoutFacts.
Variable page_size : Z.
Hypothesis page_size_range : st_size < page_size < size_modulus.

Lemma ReadFileInfo_end pg pos :
  zlen pg = page_size → 0 ≤ pos → pg !! Z.to_nat pos = Some x00 →
  ReadFileInfo page_size pg pos = Ok (Info.empty, 0).
Proof.
  intros Hlen Hpos Hz. unfold ReadFileInfo, substr_check.
  pose proof (lookup_lt_Some _ _ _ Hz). unfold zlen in Hlen.
  destruct (Z.ltb_spec page_size pos); [lia|]. simpl. by rewrite Hz.
Qed.

Lemma ReadFileInfo_record_at pg pos r next :
  zlen pg = page_size → 0 ≤ pos → record_at pg pos = Some (r, next) →
  ReadFileInfo page_size pg pos = Ok (r, next) ∧ pos + 1 + 2 * st_size ≤ next ≤ page_size.
Proof.
  intros Hlen Hpos. unfold record_at.
  destruct (pg !! Z.to_nat pos) as [ty|] eqn:Hty; [|done]. simpl.
  destruct (Byte.eqb ty x00) eqn:Hz; [done|].
  destruct (read_size_t pg (pos + 1)) as [ns|] eqn:Hns; [|done]. simpl.
  destruct (read_size_t pg (pos + 1 + st_size + ns)) as [pn|] eqn:Hpn; [|done]. simpl.
  intros [= <- <-].
  apply read_size_t_Some in Hns as Hns'. destruct Hns' as (_ & Hb1 & Hnsr).
  apply read_size_t_Some in Hpn as Hpn'. destruct Hpn' as (_ & Hb2 & _).
  rewrite Hlen in Hb1, Hb2. split; [|unfold st_size in *; lia].
  unfold ReadFileInfo, substr_check.
  destruct (Z.ltb_spec page_size pos); [unfold st_size in *; lia|]. simpl.
  rewrite Hty. simpl. rewrite Hz.
  rewrite (wrap_small (pos + 1)) by (unfold st_size in *; lia).
  destruct (Z.ltb_spec page_size (pos + 1)); [unfold st_size in *; lia|]. simpl.
  rewrite Hns. simpl.
  rewrite (wrap_small (pos + 1 + st_size)) by (unfold st_size in *; lia).
  destruct (Z.ltb_spec page_size (pos + 1 + st_size)); [unfold st_size in *; lia|]. simpl.
  rewrite (wrap_small (pos + 1 + st_size + ns)) by (unfold st_size in *; lia).
  destruct (Z.ltb_spec page_size (pos + 1 + st_size + ns)); [unfold st_size in *; lia|]. simpl.
  rewrite Hpn. simpl.
  rewrite (wrap_small (pos + 1 + st_size + ns + st_size)) by (unfold st_size in *; lia).
  reflexivity.
Qed.
End LayoutFacts.

Lemma fresh_entries_cons k d es (m : gmap string Dir.t) :
  fresh_entries ((k, d) :: es) m →
  m !! k = None ∧ fresh_entries es (<[k := d]> m).
Proof.
  intros [Hnd Hm]. simpl in *. apply NoDup_cons in Hnd as [Hk Hnd].
  split; [apply Hm; by left|]. split; [done|].
  intros k' Hk'. rewrite lookup_insert_ne; [apply Hm; by right|].
  intros ->. done.
Qed.

Lemma fresh_entries_app es es' (m : gmap string Dir.t) :
  fresh_entries (es ++ es') m →
  fresh_entries es m ∧ fresh_entries es' (insert_all es m).
Proof.
  revert m. induction es as [|[k d] es IH]; intros m H; simpl in *.
  - split; [|done]. split; [constructor|]. intros k Hk. by apply elem_of_nil in Hk.
  - apply fresh_entries_cons in H as H'. destruct H' as [Hk H'].
    apply IH in H' as [H1 H2]. split; [|done].
    destruct H as [Hnd Hm]. simpl in Hnd. rewrite fmap_app in Hnd.
    apply NoDup_cons in Hnd as [Hk' Hnd]. apply NoDup_app in Hnd as (Hnd & _ & _).
    split.
    + simpl. apply NoDup_cons. split; [|done]. intros Hin. apply Hk'.
      apply elem_of_app. by left.
    + intros k' Hk''. apply Hm. simpl. rewrite fmap_app.
      apply elem_of_cons in Hk'' as [->|Hk'']; [by left|]. right.
      apply elem_of_app. by left.
Qed.

Lemma insert_all_app es es' (m : gmap string Dir.t) :
  insert_all (es ++ es') m = insert_all es' (insert_all es m).
Proof. unfold insert_all. by rewrite foldl_app. Qed.

Lemma dir_entries_app path rs rs' :
  dir_entries path (rs ++ rs') = dir_entries path rs ++ dir_entries path rs'.
Proof. unfold dir_entries. by rewrite List.filter_app, map_app. Qed.

Section InitFacts.
Variable page_size : Z.
Hypothesis page_size_range : st_size < page_size < size_modulus.

Lemma page_records_nil_behind pg pos rs :
  page_records page_size pg pos rs → page_size - st_size ≤ pos → rs = [].
Proof. intros H Hpos. destruct H; [done|done|lia]. Qed.

Lemma Init_records_ok pg path pos rs :
  zlen pg = page_size →
  page_records page_size pg pos rs →
  0 ≤ pos < page_size - st_size →
  ∀ fuel s, (length rs < fuel)%nat →
    fresh_entries (dir_entries path rs) (virtual_dirs s) →
    ∃ s', Init_records page_size fuel path pg pos s = Ok (tt, s') ∧
          virtual_dirs s' = insert_all (dir_entries path rs) (virtual_dirs s) ∧
          virtual_files s' = virtual_files s ∧
          physical_files s' = physical_files s.
Proof.
  intros Hlen H. induction H as [pos Hpos Hz|pos Hpos|pos r next rs Hpos Hr Hrs IH];
    intros Hrange fuel s Hfuel Hfresh.
  - destruct fuel as [|fuel]; [simpl in Hfuel; lia|]. simpl.
    unfold mbind at 1, M_bind, lift.
    rewrite (ReadFileInfo_end page_size pg pos Hlen Hpos Hz). simpl.
    exists s. done.
  - lia.
  - destruct fuel as [|fuel]; [simpl in Hfuel; lia|]. simpl in Hfuel.
    destruct (ReadFileInfo_record_at page_size page_size_range pg pos r next Hlen
                (proj1 Hpos) Hr) as [HR Hnext].
    simpl. unfold mbind at 1, M_bind, lift. rewrite HR.
    assert (Hstep : ∃ s1,
      (match FileType.of_char (Info.type r) with
       | Some FileType.dir => InsertDir (Info.name r) (Info.page r) path
       | Some FileType.file => mret tt
       | None => mret tt
       end) s = Ok (tt, s1) ∧
      virtual_dirs s1 = insert_all (dir_entries path [r]) (virtual_dirs s) ∧
      virtual_files s1 = virtual_files s ∧ physical_files s1 = physical_files s ∧
      fresh_entries (dir_entries path rs) (virtual_dirs s1)).
    { unfold dir_entries in *. simpl in *. unfold FileType.of_char.
      fold (is_dir r). destruct (is_dir r) eqn:Hd; simpl in *.
      - apply fresh_entries_cons in Hfresh as [Hk Hfresh].
        unfold InsertDir, lock_guard, log, virtual_dirs_count. munfold. simpl.
        rewrite Hk. eexists. split; [reflexivity|]. simpl. done.
      - exists s. split; [by destruct (Byte.eqb _ _)|]. done. }
    destruct Hstep as (s1 & E1 & Hd1 & Hf1 & Hp1 & Hfresh1).
    unfold mbind at 1, M_bind. rewrite E1.
    assert (Hwrap : wrap (page_size - st_size) = page_size - st_size)
      by (apply wrap_small; unfold st_size in *; lia).
    rewrite Hwrap.
    destruct (Z.ltb_spec 0 next) as [_|]; [|unfold st_size in *; lia]. simpl.
    assert (Hall : insert_all (dir_entries path (r :: rs)) (virtual_dirs s)
                   = insert_all (dir_entries path rs) (virtual_dirs s1)).
    { change (r :: rs) with ([r] ++ rs). by rewrite dir_entries_app, insert_all_app, Hd1. }
    destruct (Z.ltb_spec next (page_size - st_size)) as [Hlt|Hge].
    + destruct (IH ltac:(unfold st_size in *; lia) fuel s1 ltac:(lia) Hfresh1)
        as (s' & E' & Hd' & Hf' & Hp').
      exists s'. split; [done|]. rewrite Hall. split; [done|]. split; congruence.
    + apply page_records_nil_behind in Hrs; [|done]. subst rs.
      exists s1. split; [done|]. rewrite Hall. done.
Qed.
End InitFacts.

Lemma pfile_Read_ok p f buf len pos s :
  pf_lookup p (physical_files s) = Some f →
  ∃ s', pfile_Read p buf len pos s = Ok (PFile.Read f buf len pos, s') ∧
        virtual_dirs s' = virtual_dirs s ∧
        virtual_files s' = virtual_files s ∧
        physical_files s' = physical_files s ∧
        num_of_files s' = num_of_files s.
Proof.
  intros Hp. unfold pfile_Read, physical_files_at, lock_guard, log. munfold.
  rewrite Hp. simpl.
  destruct (PFile.Read_rejects f buf len pos); simpl; eexists; (split; [reflexivity|done]).
Qed.

Lemma store_at_whole (data buf : list byte) :
  (length buf ≤ length data)%nat → store_at 0 data buf = data.
Proof.
  intros H. unfold store_at. simpl. rewrite drop_ge by lia. by rewrite app_nil_r.
Qed.

Section BootstrapFacts.
Variable page_size : Z.
Hypothesis page_size_range : st_size < page_size < size_modulus.

Lemma page_of_length c i :
  page_in_file page_size c i → zlen (page_of page_size c i) = page_size.
Proof.
  intros [Hi Hc]. unfold page_of, zlen in *. rewrite length_take, length_drop.
  assert (0 ≤ i * page_size) by (unfold st_size in *; nia).
  replace ((i + 1) * page_size) with (i * page_size + page_size) in Hc by lia.
  set (o := i * page_size) in *. clearbody o. clear Hi. unfold st_size in *. lia.
Qed.

Lemma PFile_Read_page f buf i :
  pf_wf f → zlen (content f) < size_modulus → page_in_file page_size (content f) i →
  PFile.Read f (Some buf) page_size (wrap (i * page_size + start))
  = (page_of page_size (content f) i, page_size).
Proof.
  intros Hwf Hmax Hin. pose proof (page_of_length _ _ Hin) as Hlen.
  destruct Hin as [Hi Hc].
  assert (0 ≤ i * page_size) by (unfold st_size in *; nia).
  assert (Hoff : 0 ≤ i * page_size + start ∧ i * page_size + start + page_size ≤ zlen (content f)).
  { replace ((i + 1) * page_size) with (i * page_size + page_size) in Hc by lia.
    set (o := i * page_size) in *. clearbody o. clear Hi. unfold start, st_size in *. lia. }
  rewrite wrap_small by (clear - Hoff Hmax page_size_range; unfold st_size in *; lia).
  unfold PFile.Read, PFile.Read_rejects. rewrite (GetSize_wf f Hwf).
  destruct (Z.eqb_spec page_size 0); [unfold st_size in *; lia|].
  destruct (Z.leb_spec (zlen (content f)) (i * page_size + start)); [unfold st_size in *; lia|]. simpl.
  rewrite Z.min_l by lia.
  replace (i * page_size + start) with (st_size + i * page_size) by (unfold start; lia).
  fold (page_of page_size (content f) i). by rewrite Hlen.
Qed.

Lemma Init_pages_ok path file pf i rs :
  pf_wf pf → zlen (content pf) < size_modulus →
  chain_records page_size (content pf) i rs →
  ∃ fuel0, ∀ fuel s buf, (fuel0 ≤ fuel)%nat →
    zlen buf = page_size →
    pf_lookup file (physical_files s) = Some pf →
    fresh_entries (dir_entries path rs) (virtual_dirs s) →
    ∃ s', Init_pages page_size fuel path file buf i s = Ok (tt, s') ∧
          virtual_dirs s' = insert_all (dir_entries path rs) (virtual_dirs s) ∧
          virtual_files s' = virtual_files s ∧
          physical_files s' = physical_files s.
Proof.
  intros Hwf Hmax H.
  induction H as [i rs Hin Hrs Hlink|i j rs rs' Hin Hrs Hlink Hj Hchain IH].
  - exists (S (S (length rs))). intros fuel s buf Hfuel Hbuf Hpf Hfresh.
    destruct fuel as [|fuel]; [lia|].
    pose proof (page_of_length _ _ Hin) as Hlen.
    cbn [Init_pages].
    destruct (pfile_Read_ok file pf (Some buf) page_size (wrap (i * page_size + start)) s Hpf)
      as (s1 & E1 & Hd1 & Hf1 & Hp1 & _).
    rewrite (bind_Ok _ _ _ _ _ E1). rewrite (PFile_Read_page pf buf i Hwf Hmax Hin).
    rewrite Z.eqb_refl. cbn [negb].
    rewrite store_at_whole by (unfold zlen in *; lia).
    destruct (Init_records_ok page_size page_size_range _ path 0 rs Hlen Hrs
                ltac:(unfold st_size in *; lia) (S fuel) s1 ltac:(lia)
                ltac:(by rewrite Hd1)) as (s2 & E2 & Hd2 & Hf2 & Hp2).
    rewrite (bind_Ok _ _ _ _ _ E2).
    unfold GetNextPage. rewrite wrap_small by (unfold st_size in *; lia).
    rewrite Hlink. unfold mbind, M_bind, lift, of_option. simpl.
    exists s2. split; [done|]. split; [congruence|]. split; congruence.
  - destruct IH as [fuel0 IH].
    exists (S (Nat.max (S (length rs)) fuel0)). intros fuel s buf Hfuel Hbuf Hpf Hfresh.
    destruct fuel as [|fuel]; [lia|].
    pose proof (page_of_length _ _ Hin) as Hlen.
    rewrite dir_entries_app in Hfresh. apply fresh_entries_app in Hfresh as [Hfr1 Hfr2].
    cbn [Init_pages].
    destruct (pfile_Read_ok file pf (Some buf) page_size (wrap (i * page_size + start)) s Hpf)
      as (s1 & E1 & Hd1 & Hf1 & Hp1 & _).
    rewrite (bind_Ok _ _ _ _ _ E1). rewrite (PFile_Read_page pf buf i Hwf Hmax Hin).
    rewrite Z.eqb_refl. cbn [negb].
    rewrite store_at_whole by (unfold zlen in *; lia).
    destruct (Init_records_ok page_size page_size_range _ path 0 rs Hlen Hrs
                ltac:(unfold st_size in *; lia) (S fuel) s1 ltac:(lia)
                ltac:(by rewrite Hd1)) as (s2 & E2 & Hd2 & Hf2 & Hp2).
    rewrite (bind_Ok _ _ _ _ _ E2).
    unfold GetNextPage. rewrite wrap_small by (unfold st_size in *; lia).
    rewrite Hlink. unfold mbind at 1, M_bind, lift, of_option.
    destruct (Z.ltb_spec 0 j); [|lia].
    destruct (IH fuel s2 (page_of page_size (content pf) i) ltac:(lia) Hlen
                ltac:(congruence) ltac:(by rewrite Hd2, Hd1))
      as (s3 & E3 & Hd3 & Hf3 & Hp3).
    exists s3. split; [done|].
    rewrite dir_entries_app, insert_all_app. split; [congruence|]. split; congruence.
Qed.
End BootstrapFacts.

Lemma insert_all_lookup_other es (m : gmap string Dir.t) k :
  k ∉ es.*1 → insert_all es m !! k = m !! k.
Proof.
  revert m. induction es as [|[k' d] es IH]; intros m Hk; [done|].
  simpl in *. apply not_elem_of_cons in Hk as [Hne Hk].
  unfold insert_all in *. simpl. rewrite IH by done. by rewrite lookup_insert_ne.
Qed.

Lemma insert_all_lookup es (m : gmap string Dir.t) k d :
  NoDup es.*1 → (k, d) ∈ es → insert_all es m !! k = Some d.
Proof.
  revert m. induction es as [|[k' d'] es IH]; intros m Hnd Hin.
  - by apply elem_of_nil in Hin.
  - simpl in Hnd. apply NoDup_cons in Hnd as [Hk' Hnd].
    apply elem_of_cons in Hin as [[= -> ->]|Hin].
    + change (insert_all ((k', d') :: es) m) with (insert_all es (<[k' := d']> m)).
      rewrite insert_all_lookup_other by done. by rewrite lookup_insert_eq.
    + change (insert_all ((k', d') :: es) m) with (insert_all es (<[k' := d']> m)).
      by apply IH.
Qed.

Lemma dir_entries_elem path rs r :
  r ∈ rs → is_dir r = true → (Info.name r, Dir.mk path (Info.page r)) ∈ dir_entries path rs.
Proof.
  intros Hin Hd. unfold dir_entries.
  apply (list_elem_of_fmap_2 (fun r => (Info.name r, Dir.mk path (Info.page r)))).
  apply list_elem_of_In, List.filter_In. split; [by apply list_elem_of_In|done].
Qed.

Lemma PFile_Read_header f buf :
  pf_wf f → st_size ≤ zlen (content f) →
  PFile.Read f (Some buf) st_size 0 = (take (Z.to_nat st_size) (content f), st_size).
Proof.
  intros Hwf Hlen. unfold PFile.Read, PFile.Read_rejects. rewrite (GetSize_wf f Hwf).
  destruct (Z.leb_spec (zlen (content f)) 0); [unfold st_size in *; lia|]. simpl.
  change (Z.to_nat 0) with 0%nat. rewrite drop_0.
  rewrite Z.min_l by lia. f_equal.
  unfold zlen in *. rewrite length_take. unfold st_size in *. lia.
Qed.


(** * Properties of the specification *)

(** ** C10: null names *)

(** C10: [Open(nullptr)] and [Create(nullptr)] return null, and the state
    behind the call is the state before it, trace included: no mutex was
    locked, no backing file was called, and the index is as it was. *)
Theorem Open_Create_null page_size fuel s :
  Open page_size fuel None s = Ok (None, s) ∧
  Create page_size fuel None s = Ok (None, s).
Proof. split; reflexivity. Qed.

(** ** C6: soft contract violations *)

(** C6: with a null handle, a null buffer, a zero length or a handle in the
    wrong mode, [Read] and [Write] return 0; the caller's buffer and the
    whole state are untouched, so the trace records no call into a backing
    file. *)
Theorem Read_Write_reject page_size fuel f buff len s :
  (soft_violation openR s f buff len →
     Read page_size fuel f buff len s = Ok ((0, buff), s)) ∧
  (soft_violation openW s f buff len →
     Write page_size fuel f buff len s = Ok (0, s)).
Proof.
  split; intros [-> | [-> | [-> | (h & file & -> & Hf & Hst)]]]; try reflexivity.
  all: try (destruct f; reflexivity).
  all: try (destruct f, buff; reflexivity).
  - destruct buff as [b|]; [|reflexivity]. unfold Read.
    destruct (len =? 0); [reflexivity|].
    unfold deref. munfold. rewrite Hf. simpl.
    rewrite FileStatus_eqb_neq by done. reflexivity.
  - destruct buff as [b|]; [|reflexivity]. unfold Write.
    destruct (len =? 0); [reflexivity|].
    unfold deref. munfold. rewrite Hf. simpl.
    rewrite FileStatus_eqb_neq by done. reflexivity.
Qed.

(** A [Read] through the write handle of ["/x/y"]. *)
Lemma Read_Write_reject_witness :
  Read Scenario.page_size Scenario.fuel (Some "/x/y"%string) (Some (zeroes 4)) 4
    Scenario.with_writer
  = Ok ((0, Some (zeroes 4)), Scenario.with_writer).
Proof.
  apply (proj1 (Read_Write_reject Scenario.page_size Scenario.fuel (Some "/x/y"%string)
                  (Some (zeroes 4)) 4 Scenario.with_writer)).
  right; right; right. exists "/x/y"%string, Scenario.write_handle.
  split; [reflexivity|]. split; [vm_compute; reflexivity|discriminate].
Defined.

(** ** C3: a writer excludes readers *)

(** [Open] on a path that has an entry. *)
Lemma Open_on_entry page_size fuel name s file :
  virtual_files s !! absolute name = Some file →
  let p := absolute name in
  let file' := File.set_readers (wrap (File.readers file + 1)) file in
  (File.status file ≠ openR →
     ∃ s', Open page_size fuel (Some name) s = Ok (None, s') ∧
           virtual_files s' = virtual_files s) ∧
  (∀ h s', Open page_size fuel (Some name) s = Ok (Some h, s') →
     File.status file = openR ∧ h = p ∧
     virtual_files s' = <[p := file']> (virtual_files s)) ∧
  (File.status file = openR → is_vRoot p = false → is_vRoot (parent_path p) = false →
     Open page_size fuel (Some name) s
     = Ok (Some p, set_virtual_files (<[p := file']> (virtual_files s))
                     (locked editing_files_mutex s))).
Proof.
  intros Hf. cbv zeta. unfold Open.
  set (p := absolute name) in *.
  destruct (is_vRoot p || is_vRoot (parent_path p)) eqn:Hroot.
  - split; [|split].
    + intros _. by exists s.
    + intros h s' [=].
    + intros _ H1 H2. rewrite H1, H2 in Hroot. discriminate.
  - unfold lock_guard, log, update_file. munfold. simpl. rewrite Hf.
    destruct (File.status file) eqn:Hst; simpl.
    + split; [|split]; [ intros _; by eexists | intros h s' [=] | intros [=] ].
    + rewrite Hf. split; [|split]; [ intros []; done | | ].
      * intros h s' [= <- <-]. done.
      * intros _ _ _. done.
    + split; [|split]; [ intros _; by eexists | intros h s' [=] | intros [=] ].
Qed.

(** C3: when the path is in [virtual_files], [Open] returns null unless the
    entry's status is [openR] (so it returns null while the status is
    [openW]), and leaves the index as it is; a handle it returns is the key
    of that entry, whose reader count it has incremented; and it does return
    one when the status is [openR] and the path is one it accepts. And once
    [Create(p)] has returned a handle, whatever calls follow that are not a
    [Close] of that handle, [Open(p)] returns null. *)
Theorem Open_on_open_path page_size fuel name s :
  (∀ file, virtual_files s !! absolute name = Some file →
     let p := absolute name in
     let file' := File.set_readers (wrap (File.readers file + 1)) file in
     (File.status file ≠ openR →
        ∃ s', Open page_size fuel (Some name) s = Ok (None, s') ∧
              virtual_files s' = virtual_files s) ∧
     (∀ h s', Open page_size fuel (Some name) s = Ok (Some h, s') →
        File.status file = openR ∧ h = p ∧
        virtual_files s' = <[p := file']> (virtual_files s)) ∧
     (File.status file = openR → is_vRoot p = false → is_vRoot (parent_path p) = false →
        Open page_size fuel (Some name) s
        = Ok (Some p, set_virtual_files (<[p := file']> (virtual_files s))
                        (locked editing_files_mutex s)))) ∧
  (∀ fuel0 s0 h s1 cs,
     names_ok s0 →
     Create page_size fuel0 (Some name) s0 = Ok (Some h, s1) →
     forallb (fun c => negb (closes h c)) cs = true →
     run_calls page_size fuel0 cs s1 = Ok (tt, s) →
     ∃ s', Open page_size fuel (Some name) s = Ok (None, s') ∧
           virtual_files s' = virtual_files s).
Proof.
  split; [intros file Hf; by apply Open_on_entry|].
  intros fuel0 s0 h s1 cs Hs Hc Hcs Hrun.
  destruct (post_inv _ _ _ _ _ (Create_result page_size fuel0 name s0) Hc h eq_refl)
    as (-> & Hnone & f & Hf & Hst).
  pose proof (post_inv _ _ _ _ _ (Create_grows page_size fuel0 (Some name) s0) Hc) as Hg.
  simpl in Hg.
  assert (Hs1 : names_ok s1) by (eapply keeps_names_ok; [by eapply grows_keeps|done]).
  destruct (post_inv _ _ _ _ _
              (run_calls_keeps page_size fuel0 cs s1 (absolute name) f Hs1 Hf Hcs) Hrun)
    as (_ & f' & Hf' & Hst').
  apply (proj1 (Open_on_entry page_size fuel name s f' Hf')).
  rewrite Hst', Hst. discriminate.
Qed.

(** [Open("/x/y")] while the handle that [Create("/x/y")] returned is
    outstanding and written through. *)
Lemma Open_on_open_path_witness :
  ∃ s', Open Scenario.page_size Scenario.fuel (Some "/x/y"%string)
          (Scenario.state_after (call_Create (Some "/x/y"%string) :: Scenario.in_between))
        = Ok (None, s') ∧
        virtual_files s'
        = virtual_files
            (Scenario.state_after (call_Create (Some "/x/y"%string) :: Scenario.in_between)).
Proof.
  apply (proj2 (Open_on_open_path Scenario.page_size Scenario.fuel "/x/y"
                  (Scenario.state_after
                     (call_Create (Some "/x/y"%string) :: Scenario.in_between)))
           Scenario.fuel Scenario.constructed "/x/y"%string Scenario.with_writer
           Scenario.in_between).
  - apply names_ok_empty. vm_compute. reflexivity.
  - vm_compute. reflexivity.
  - reflexivity.
  - vm_compute. reflexivity.
Defined.

(** ** C4: a read that fits the first page *)

(** C4: for a handle in read mode, a buffer and [len > 0], [Read] clamps
    [len] to [data_len]; when the clamped length is at most
    [page_size - 2 * st_size] the result is the result of one
    [PhysicalFile::Read] of that length at
    [page * page_size + 2 * st_size], stored at the start of the buffer, and
    this is the only call into a backing file the trace gains. *)
Theorem Read_single_page page_size fuel h b len s file pf :
  virtual_files s !! h = Some file →
  File.status file = openR →
  0 < len →
  pf_lookup (File.p_file file) (physical_files s) = Some pf →
  let clamped := Z.min len (File.data_len file) in
  let offset := File.page file * page_size + 2 * st_size in
  0 ≤ page_size - 2 * st_size < size_modulus →
  0 ≤ offset < size_modulus →
  clamped ≤ page_size - 2 * st_size →
  ∃ s', Read page_size fuel (Some h) (Some b) len s
        = Ok ((snd (PFile.Read pf (Some b) clamped offset),
               Some (store_at 0 (fst (PFile.Read pf (Some b) clamped offset)) b)), s') ∧
        calls (trace s') = calls (trace s) ++ [CallRead (File.p_file file) clamped offset] ∧
        physical_files s' = physical_files s ∧
        virtual_files s' = virtual_files s ∧
        virtual_dirs s' = virtual_dirs s.
Proof.
  intros Hf Hst Hlen Hpf clamped offset Hps Hoff Hfit.
  unfold Read. destruct (Z.eqb_spec len 0) as [|_]; [lia|].
  unfold deref, physical_files_at, pfile_Read, physical_files_at, lock_guard, log. munfold.
  rewrite Hf. simpl. rewrite Hst. simpl. rewrite Hpf. simpl.
  replace (if len <=? File.data_len file then len else File.data_len file) with clamped
    by (subst clamped; destruct (Z.leb_spec len (File.data_len file)); lia).
  replace (wrap (page_size - st_size - st_size)) with (page_size - 2 * st_size)
    by (unfold wrap; rewrite Z.mod_small; lia).
  destruct (Z.leb_spec clamped (page_size - 2 * st_size)) as [_|]; [|lia].
  rewrite Hpf. simpl.
  replace (wrap (File.page file * page_size + start + st_size)) with offset
    by (subst offset; unfold wrap, start; rewrite Z.mod_small; lia).
  destruct (PFile.Read pf (Some b) clamped offset) as [data n]; simpl.
  match goal with |- context [if ?c then _ else _] => destruct c end; simpl;
    eexists; (split; [reflexivity|]); simpl;
    rewrite ?calls_app; simpl; rewrite ?app_nil_r; done.
Qed.

(** Reading the twelve bytes of ["/a/b"] back: one call, at offset
    [2 * 4096 + 16]. *)
Lemma Read_single_page_witness :
  ∃ s', Read Scenario.page_size Scenario.fuel (Some "/a/b"%string) (Some (zeroes 12)) 12
          Scenario.with_reader
        = Ok ((12, Some Scenario.hello), s') ∧
        calls (trace s')
        = calls (trace Scenario.with_reader) ++ [CallRead "/vfs/1.vfs" 12 8208].
Proof.
  destruct (Read_single_page Scenario.page_size Scenario.fuel "/a/b" (zeroes 12) 12
              Scenario.with_reader Scenario.read_handle
              (Scenario.first_file Scenario.with_reader))
    as (s' & E & Hc & _).
  - vm_compute; reflexivity.
  - reflexivity.
  - lia.
  - vm_compute; reflexivity.
  - vm_compute. split; [discriminate|reflexivity].
  - vm_compute. split; [discriminate|reflexivity].
  - vm_compute. discriminate.
  - exists s'. split; [|exact Hc]. rewrite E. vm_compute. reflexivity.
Defined.

(** ** C9: Close *)

(** C9: [Close] does nothing for a null handle, for a handle whose entry is
    gone and for an entry whose name is not in [virtual_files]. Otherwise a
    reader count above 1 is decremented and the entry stays; a reader count
    of 1 is decremented and the entry erased; a reader count of 0 gets the
    entry erased at once, which is what happens to the handle a [Create]
    returned: it is in write mode with no reader, and one [Close] erases
    it. [Close] always returns, and it leaves the backing files and the
    calls recorded in the trace as they were. *)
Theorem Close_spec f s :
  (f = None → Close f s = Ok (tt, s)) ∧
  (∀ h, f = Some h → virtual_files s !! h = None → Close f s = Ok (tt, s)) ∧
  (∀ h file, f = Some h → virtual_files s !! h = Some file →
     virtual_files s !! File.name file = None → Close f s = Ok (tt, s)) ∧
  (∀ h file, f = Some h → virtual_files s !! h = Some file →
     is_Some (virtual_files s !! File.name file) →
     let file' := File.set_readers (File.readers file - 1) file in
     (1 < File.readers file < size_modulus →
        Close f s = Ok (tt, set_virtual_files (<[h := file']> (virtual_files s)) s)) ∧
     (File.readers file = 1 →
        Close f s = Ok (tt, set_virtual_files
                              (delete (File.name file) (<[h := file']> (virtual_files s)))
                              (locked editing_files_mutex s))) ∧
     (File.readers file = 0 →
        Close f s = Ok (tt, set_virtual_files (delete (File.name file) (virtual_files s))
                              (locked editing_files_mutex s)))) ∧
  (∀ page_size fuel name s0 h, f = Some h →
     Create page_size fuel (Some name) s0 = Ok (Some h, s) →
     ∃ file, virtual_files s !! h = Some file ∧
             File.status file = openW ∧ File.readers file = 0 ∧
             Close f s = Ok (tt, set_virtual_files (delete h (virtual_files s))
                                   (locked editing_files_mutex s))) ∧
  (∃ s', Close f s = Ok (tt, s') ∧ physical_files s' = physical_files s ∧
         calls (trace s') = calls (trace s)).
Proof.
  split; [|split; [|split; [|split; [|split]]]].
  - intros ->. reflexivity.
  - intros h -> Hh. unfold Close. munfold. by rewrite Hh.
  - intros h file -> Hh Hn. unfold Close, virtual_files_count. munfold. by rewrite Hh, Hn.
  - intros h file -> Hh [g Hn] file'.
    unfold Close, virtual_files_count, lock_guard, log, update_file, deref.
    munfold. rewrite Hh, Hn. simpl.
    split; [|split].
    + intros Hr. destruct (Z.eqb_spec (File.readers file) 0); [lia|]. simpl.
      rewrite Hh. simpl. rewrite lookup_insert_eq. simpl.
      unfold wrap. rewrite Z.mod_small by lia.
      destruct (Z.eqb_spec (File.readers file - 1) 0); [lia|]. done.
    + intros Hr. rewrite Hr. simpl. rewrite Hh. simpl. rewrite lookup_insert_eq. simpl.
      subst file'. rewrite Hr. reflexivity.
    + intros Hr. rewrite Hr. done.
  - intros page_size fuel name s0 h -> Hc.
    destruct (post_inv _ _ _ _ _ (Create_result page_size fuel name s0) Hc h eq_refl)
      as (-> & Hnone & file & Hf & Hst).
    pose proof (post_inv _ _ _ _ _ (Create_grows page_size fuel (Some name) s0) Hc
                  (absolute name)) as Hg.
    simpl in Hg. rewrite Hnone in Hg. destruct (Hg file Hf) as [Hn Hr].
    exists file. repeat split; try done.
    unfold Close, virtual_files_count, lock_guard, log. munfold.
    rewrite Hf, Hn, Hf, Hr. reflexivity.
  - destruct f as [h|]; [|by exists s].
    unfold Close, virtual_files_count, lock_guard, log, update_file, deref. munfold.
    destruct (virtual_files s !! h) as [file|] eqn:Hh; [|by exists s].
    destruct (virtual_files s !! File.name file); simpl; [|by exists s].
    destruct (File.readers file =? 0); simpl.
    + eexists; split; [done|]. simpl. split; [done|].
      rewrite calls_app. simpl. by rewrite app_nil_r.
    + rewrite Hh. simpl. rewrite lookup_insert_eq. simpl.
      destruct (wrap (File.readers file - 1) =? 0); simpl.
      * eexists; split; [done|]. simpl. split; [done|].
        rewrite calls_app. simpl. by rewrite app_nil_r.
      * eexists; split; [done|]. done.
Qed.

(** One [Close] on the handle that [Create("/x/y")] returned. *)
Lemma Close_spec_witness :
  ∃ file, virtual_files Scenario.with_writer !! "/x/y"%string = Some file ∧
          File.status file = openW ∧ File.readers file = 0 ∧
          Close (Some "/x/y"%string) Scenario.with_writer
          = Ok (tt, set_virtual_files (delete "/x/y"%string (virtual_files Scenario.with_writer))
                      (locked editing_files_mutex Scenario.with_writer)).
Proof.
  apply (proj1 (proj2 (proj2 (proj2 (proj2
           (Close_spec (Some "/x/y"%string) Scenario.with_writer)))))
           Scenario.page_size Scenario.fuel "/x/y"%string Scenario.constructed
           "/x/y"%string eq_refl).
  vm_compute. reflexivity.
Defined.

(** ** C5: a second Create *)

(** C5: once [Create(p)] has returned a handle, and whatever calls follow
    that return and are not a [Close] of that handle, [Create(p)] returns
    null; the index of files and directories, the backing files and the file
    counter are as before, and the trace gains no call into a backing file.
    With no call in between these are two consecutive calls of [Create(p)].
    The state before the first [Create] is any state in which every entry is
    filed under its name, as it is after construction and after every
    call. *)
Theorem Create_while_open page_size fuel fuel' name cs s h s1 s2 :
  names_ok s →
  Create page_size fuel (Some name) s = Ok (Some h, s1) →
  forallb (fun c => negb (closes h c)) cs = true →
  run_calls page_size fuel cs s1 = Ok (tt, s2) →
  ∃ s3, Create page_size fuel' (Some name) s2 = Ok (None, s3) ∧
        virtual_files s3 = virtual_files s2 ∧
        virtual_dirs s3 = virtual_dirs s2 ∧
        physical_files s3 = physical_files s2 ∧
        num_of_files s3 = num_of_files s2 ∧
        calls (trace s3) = calls (trace s2).
Proof.
  intros Hs Hc Hcs Hrun.
  destruct (post_inv _ _ _ _ _ (Create_result page_size fuel name s) Hc h eq_refl)
    as (-> & Hnone & f & Hf & Hst).
  pose proof (post_inv _ _ _ _ _ (Create_grows page_size fuel (Some name) s) Hc) as Hg.
  simpl in Hg.
  assert (Hs1 : names_ok s1) by (eapply keeps_names_ok; [by eapply grows_keeps|done]).
  destruct (post_inv _ _ _ _ _
              (run_calls_keeps page_size fuel cs s1 (absolute name) f Hs1 Hf Hcs) Hrun)
    as (_ & f' & Hf' & _).
  destruct (Create_on_open_path page_size fuel' name s2 (mk_is_Some _ _ Hf')) as [E|E];
    rewrite E; eexists; (split; [reflexivity|]); simpl; try done.
  repeat split; try done. rewrite calls_app. simpl. by rewrite app_nil_r.
Qed.

(** [Create("/x/y")] twice on a new VFS, with a write, a refused open and
    the life of another file in between. *)
Lemma Create_while_open_witness :
  ∃ s3, Create Scenario.page_size Scenario.fuel (Some "/x/y"%string)
          (Scenario.state_after (call_Create (Some "/x/y"%string) :: Scenario.in_between))
        = Ok (None, s3) ∧
        virtual_files s3
        = virtual_files
            (Scenario.state_after (call_Create (Some "/x/y"%string) :: Scenario.in_between)) ∧
        virtual_dirs s3
        = virtual_dirs
            (Scenario.state_after (call_Create (Some "/x/y"%string) :: Scenario.in_between)) ∧
        physical_files s3
        = physical_files
            (Scenario.state_after (call_Create (Some "/x/y"%string) :: Scenario.in_between)) ∧
        num_of_files s3
        = num_of_files
            (Scenario.state_after (call_Create (Some "/x/y"%string) :: Scenario.in_between)) ∧
        calls (trace s3)
        = calls (trace
            (Scenario.state_after (call_Create (Some "/x/y"%string) :: Scenario.in_between))).
Proof.
  apply (Create_while_open Scenario.page_size Scenario.fuel Scenario.fuel "/x/y"
           Scenario.in_between Scenario.constructed "/x/y" Scenario.with_writer).
  - apply names_ok_empty. vm_compute. reflexivity.
  - vm_compute. reflexivity.
  - reflexivity.
  - vm_compute. reflexivity.
Defined.

(** ** C7: PhysicalFile::Write *)

(** C7, as the code has it: for a buffer of [len > 0] bytes and an offset
    that is not behind the end of the file, [Write] returns [len]; the file
    then holds the buffer at the offset and its old bytes before and behind
    it; its size is the larger of the old size and [pos + len]; the tracked
    size is again the size of the host file. For an offset behind the end
    [Write] returns 0 and the file is as it was. *)
Theorem PFile_Write_spec f buf len pos :
  (pf_wf f → 0 < len → 0 ≤ pos ≤ PFile.GetSize f → pos + len < size_modulus →
   zlen buf = len →
   ∃ f', PFile.Write f (Some buf) len pos = (f', len) ∧
         take (Z.to_nat len) (drop (Z.to_nat pos) (content f')) = buf ∧
         take (Z.to_nat pos) (content f') = take (Z.to_nat pos) (content f) ∧
         drop (Z.to_nat (pos + len)) (content f') = drop (Z.to_nat (pos + len)) (content f) ∧
         PFile.GetSize f' = Z.max (PFile.GetSize f) (pos + len) ∧
         pf_wf f' ∧
         filepath f' = filepath f) ∧
  (PFile.GetSize f < pos → PFile.Write f (Some buf) len pos = (f, 0)).
Proof.
  split.
  2:{ intros Hpos. unfold PFile.Write, PFile.Write_rejects.
      destruct (Z.ltb_spec (PFile.GetSize f) pos); [|lia]. by rewrite orb_true_r. }
  intros Hwf Hlen Hpos Hmax Hbuf.
  rewrite (GetSize_wf f Hwf) in *.
  unfold PFile.Write, PFile.Write_rejects. rewrite (GetSize_wf f Hwf).
  destruct (Z.eqb_spec len 0) as [|_]; [lia|].
  destruct (Z.ltb_spec (zlen (content f)) pos) as [|_]; [lia|]. simpl.
  assert (Hload : load len buf = buf).
  { unfold load. rewrite <- Hbuf. unfold zlen. rewrite Nat2Z.id. apply resize_all. }
  rewrite Hload, Hbuf.
  assert (Hc : PFile.stream_write pos buf (content f)
               = take (Z.to_nat pos) (content f) ++ buf
                 ++ drop (Z.to_nat pos + length buf) (content f)).
  { unfold PFile.stream_write. rewrite resize_le; [done|]. unfold zlen in *. lia. }
  rewrite Hc.
  assert (Hlt : length (take (Z.to_nat pos) (content f)) = Z.to_nat pos).
  { rewrite length_take. unfold zlen in *. lia. }
  assert (Hlb : length buf = Z.to_nat len) by (unfold zlen in *; lia).
  eexists. split; [f_equal; lia|]. simpl.
  split; [|split; [|split; [|split; [|split]]]].
  - rewrite drop_app_length'; [|done]. rewrite take_app_length'; done.
  - rewrite take_app_length'; done.
  - rewrite app_assoc. rewrite drop_app_length'.
    + f_equal. lia.
    + rewrite length_app. lia.
  - unfold PFile.GetSize. simpl. unfold wrap. rewrite Z.mod_small by lia.
    rewrite Hwf. unfold zlen. rewrite !length_app, length_drop.
    destruct (Z.ltb_spec (Z.of_nat (length (content f))) (pos + len)).
    + destruct (Z.eqb_spec (pos + len) 0); lia.
    + destruct (Z.eqb_spec (Z.of_nat (length (content f))) 0); lia.
  - unfold pf_wf. simpl. unfold wrap. rewrite Z.mod_small by lia.
    rewrite Hwf. unfold zlen. rewrite !length_app, length_drop.
    destruct (Z.ltb_spec (Z.of_nat (length (content f))) (pos + len)); lia.
  - done.
Qed.

(** Two bytes at offset 3 of a four byte file: the file grows to five. *)
Lemma PFile_Write_spec_witness :
  ∃ f', PFile.Write Scenario.four_bytes (Some [x05; x06]) 2 3 = (f', 2) ∧
        content f' = [x01; x02; x03; x05; x06] ∧
        PFile.GetSize f' = 5.
Proof.
  destruct (proj1 (PFile_Write_spec Scenario.four_bytes [x05; x06] 2 3))
    as (f' & E & _).
  - reflexivity.
  - lia.
  - vm_compute. split; discriminate.
  - reflexivity.
  - reflexivity.
  - exists f'. rewrite E. vm_compute in E. injection E as <-.
    split; [reflexivity|]. split; reflexivity.
Defined.

(** C7 as stated fails for an offset behind the end: one byte for offset 5
    of a four byte file is refused; [Write] returns 0, not 1, and the file
    is as it was. *)
Lemma PFile_Write_past_end :
  PFile.Write Scenario.four_bytes (Some [x05]) 1 5 = (Scenario.four_bytes, 0).
Proof. reflexivity. Qed.

(** ** C8: bootstrap *)

(** C8: let the backing file under [path] hold at least its header. If the
    header is 0, [Init] returns and the indexes of directories and of open
    files are as before. If it is not 0 and [rs] are the records of the
    chain of page 0, no two directory records among them have the same name
    and none of these names is a known directory yet, then [Init] returns
    (from some fuel on); every record of [rs] of type [dir] is in
    [virtual_dirs] afterwards, its name mapped to its page and to [path];
    every other name is mapped as before; and [virtual_files] is as before,
    so no record of type [file] was put into it. *)
Theorem Init_bootstrap page_size path pf s :
  st_size < page_size < size_modulus →
  pf_lookup path (physical_files s) = Some pf →
  pf_wf pf →
  st_size ≤ zlen (content pf) < size_modulus →
  (file_header (content pf) = 0 →
     ∀ fuel, ∃ s', Init page_size fuel path path s = Ok (tt, s') ∧
                   virtual_dirs s' = virtual_dirs s ∧
                   virtual_files s' = virtual_files s) ∧
  (file_header (content pf) ≠ 0 →
     ∀ rs, chain_records page_size (content pf) 0 rs →
           fresh_entries (dir_entries path rs) (virtual_dirs s) →
     ∃ fuel0, ∀ fuel, (fuel0 ≤ fuel)%nat →
       ∃ s', Init page_size fuel path path s = Ok (tt, s') ∧
             virtual_files s' = virtual_files s ∧
             (∀ r, r ∈ rs → is_dir r = true →
                   virtual_dirs s' !! Info.name r = Some (Dir.mk path (Info.page r))) ∧
             (∀ k, k ∉ (dir_entries path rs).*1 →
                   virtual_dirs s' !! k = virtual_dirs s !! k)).
Proof.
  intros Hps Hpf Hwf Hsize.
  assert (Hhead : ∀ fuel,
    Init page_size fuel path path s
    = (let st_buf := take (Z.to_nat st_size) (content pf) in
       if Z_of_bytes st_buf =? 0 then mret tt
       else modify (fun s => set_num_of_files (wrap (num_of_files s + Z_of_bytes st_buf)) s);;
            Init_pages page_size fuel path path (zeroes page_size) 0)
        (set_trace (trace s ++ [CallRead path st_size 0; Lock (io_mutex path)]) s)).
  { intros fuel. unfold Init.
    unfold pfile_Read at 1, physical_files_at, lock_guard, log. munfold.
    rewrite Hpf. simpl.
    rewrite (PFile_Read_header pf _ Hwf (proj1 Hsize)).
    unfold PFile.Read_rejects. rewrite (GetSize_wf pf Hwf).
    destruct (Z.leb_spec (zlen (content pf)) 0); [unfold st_size in *; lia|].
    simpl. rewrite <- app_assoc. simpl.
    rewrite store_at_whole; [done|].
    unfold zeroes. rewrite length_replicate, length_take.
    unfold zlen in *. unfold st_size in *. lia. }
  split.
  - intros Hz fuel. rewrite Hhead. unfold file_header in Hz. simpl. rewrite Hz. simpl.
    eexists. split; [reflexivity|]. done.
  - intros Hnz rs Hchain Hfresh.
    destruct (Init_pages_ok page_size Hps path path pf 0 rs Hwf (proj2 Hsize) Hchain)
      as [fuel0 Hpages].
    exists fuel0. intros fuel Hfuel. rewrite Hhead. unfold file_header in Hnz. simpl.
    destruct (Z.eqb_spec (Z_of_bytes (take (Z.to_nat st_size) (content pf))) 0); [done|].
    unfold modify. unfold mbind, M_bind.
    match goal with |- context [Init_pages _ _ _ _ _ _ ?s1] =>
      destruct (Hpages fuel s1 (zeroes page_size) Hfuel) as (s' & E & Hd & Hf & Hp) end.
    + unfold zeroes, zlen. rewrite length_replicate. unfold st_size in *. lia.
    + done.
    + done.
    + exists s'. split; [done|]. split; [done|]. simpl in Hd. destruct Hfresh as [Hnd Hnone].
      split.
      * intros r Hr Hdir. rewrite Hd. apply insert_all_lookup; [done|].
        by apply dir_entries_elem.
      * intros k Hk. rewrite Hd. by apply insert_all_lookup_other.
Qed.

Lemma Sample_chain :
  chain_records Sample.page_size (content Sample.backing_file) 0 Sample.records.
Proof.
  apply chain_last.
  - split; [lia|]. vm_compute. discriminate.
  - eapply records_cons; [vm_compute; split; [discriminate|reflexivity]
                         | vm_compute; reflexivity |].
    eapply records_cons; [vm_compute; split; [discriminate|reflexivity]
                         | vm_compute; reflexivity |].
    apply records_end; [lia | vm_compute; reflexivity].
  - vm_compute. reflexivity.
Defined.

(** [Init] on the sample file: ["/a"] becomes a known directory, ["/f"]
    does not become an open file. *)
Lemma Init_bootstrap_witness :
  ∃ fuel0, ∀ fuel, (fuel0 ≤ fuel)%nat →
    ∃ s', Init Sample.page_size fuel Sample.host Sample.host Sample.opened = Ok (tt, s') ∧
          virtual_files s' = virtual_files Sample.opened ∧
          (∀ r, r ∈ Sample.records → is_dir r = true →
                virtual_dirs s' !! Info.name r
                = Some (Dir.mk Sample.host (Info.page r))) ∧
          (∀ k, k ∉ (dir_entries Sample.host Sample.records).*1 →
                virtual_dirs s' !! k = virtual_dirs Sample.opened !! k).
Proof.
  apply (proj2 (Init_bootstrap Sample.page_size Sample.host Sample.backing_file
                  Sample.opened
                  ltac:(vm_compute; split; reflexivity)
                  ltac:(reflexivity)
                  ltac:(reflexivity)
                  ltac:(vm_compute; split; [discriminate|reflexivity]))).
  - vm_compute. discriminate.
  - exact Sample_chain.
  - split.
    + vm_compute. apply NoDup_cons. split; [apply not_elem_of_nil|apply NoDup_nil_2].
    + intros k _. apply lookup_empty.
Defined.

(** ** C1: the round trip *)

(** C1, at 4081 bytes: [Create("/d1/g"); Write(h, data, 4081); Close(h);
    h' = Open("/d1/g"); Read(h', out, 4081)] writes 4081 and reads 4081
    bytes, but [out] is not [data]: its last byte is the first byte of
    [data] again. The loop of [Read] reads every further chunk at
    [f->page], the first page, and not at the page whose link it has just
    read. *)
Theorem round_trip_4081_repeats_first_page :
  Scenario.round_trip "/d1/g" Scenario.data
  = Ok (4081, 4081, Some (take 4080 Scenario.data ++ take 1 Scenario.data)) ∧
  take 4080 Scenario.data ++ take 1 Scenario.data ≠ Scenario.data.
Proof.
  split; [vm_compute; reflexivity|].
  intros E. apply (f_equal (fun l => l !! 4080%nat)) in E. vm_compute in E. discriminate.
Qed.

(** ** C2: page alignment *)

(** C2, at 4081 bytes: the five backing files are page aligned after
    construction and after [Create("/d1/g")], and no longer after
    [Write(h, data, 4081)]. [WriteToFile] pads the tail with
    [page_size - written_bytes % page_size] zero bytes, where
    [written_bytes] counts the 4080 bytes that went into the first page
    too: 1 byte and 15 zero bytes are appended, not a page. *)
Theorem Write_4081_breaks_page_alignment :
  Scenario.alignment "/d1/g" Scenario.data = Ok (true, true, false).
Proof. vm_compute. reflexivity. Qed.

(** The round trip of the demonstration driver: twelve bytes come back. *)
Example round_trip_hello :
  Scenario.round_trip "/new_dir/new_file" Scenario.hello
  = Ok (12, 12, Some Scenario.hello).
Proof. vm_compute. reflexivity. Qed.



(** * Further properties of the code *)

Local Open Scope Z_scope.

(** ** Object representations *)

Lemma Z_of_byte_of_Z z : Z_of_byte (byte_of_Z z) = z mod 256.
Proof.
  unfold Z_of_byte, byte_of_Z.
  assert (H : 0 ≤ z mod 256 < 256) by (apply Z.mod_pos_bound; lia).
  destruct (Byte.of_N (Z.to_N (z mod 256))) as [b|] eqn:E.
  - apply Byte.to_of_N in E. rewrite E. lia.
  - apply Byte.of_N_None_iff in E. lia.
Qed.

Lemma length_bytes_of_Z n z : length (bytes_of_Z n z) = n.
Proof. revert z. induction n; intros z; simpl; [done|]. by rewrite IHn. Qed.

Lemma Z_of_bytes_of_Z n z : Z_of_bytes (bytes_of_Z n z) = z mod 256 ^ Z.of_nat n.
Proof.
  revert z. induction n as [|n IH]; intros z.
  - simpl. by rewrite Z.mod_1_r.
  - cbn [bytes_of_Z Z_of_bytes]. rewrite IH, Z_of_byte_of_Z.
    rewrite Nat2Z.inj_succ, Z.pow_succ_r by lia.
    assert (0 < 256 ^ Z.of_nat n) by (apply Z.pow_pos_nonneg; lia).
    rewrite Z.rem_mul_r by lia. lia.
Qed.

Lemma length_size_t_bytes n : length (size_t_bytes n) = Z.to_nat st_size.
Proof. apply length_bytes_of_Z. Qed.

Lemma Z_of_size_t_bytes n : Z_of_bytes (size_t_bytes n) = wrap n.
Proof. unfold size_t_bytes. rewrite Z_of_bytes_of_Z. reflexivity. Qed.

Lemma zlen_app {A} (l k : list A) : zlen (l ++ k) = zlen l + zlen k.
Proof. unfold zlen. rewrite length_app. lia. Qed.

Lemma zlen_load n buf : 0 ≤ n → zlen (load n buf) = n.
Proof. intros. unfold zlen, load. rewrite length_resize. lia. Qed.

Lemma zlen_zeroes n : 0 ≤ n → zlen (zeroes n) = n.
Proof. intros. unfold zlen, zeroes. rewrite length_replicate. lia. Qed.

Lemma zlen_nonneg {A} (l : list A) : 0 ≤ zlen l.
Proof. unfold zlen. lia. Qed.

Lemma load_exact buf : load (zlen buf) buf = buf.
Proof. unfold load, zlen. rewrite Nat2Z.id. apply resize_all. Qed.

(** ** [PhysicalFile] *)

(** What an accepted [Write] leaves behind. *)
Lemma PFile_Write_eq f buf len pos :
  pf_wf f → 0 < len → 0 ≤ pos ≤ zlen (content f) → pos + len < size_modulus →
  PFile.Write f (Some buf) len pos
  = ({| filepath := filepath f;
        content := take (Z.to_nat pos) (content f) ++ load len buf
                     ++ drop (Z.to_nat (pos + len)) (content f);
        file_size := Z.max (zlen (content f)) (pos + len) |}, len).
Proof.
  intros Hwf Hlen Hpos Hmax.
  unfold PFile.Write, PFile.Write_rejects. rewrite (GetSize_wf f Hwf).
  destruct (Z.eqb_spec len 0) as [|_]; [lia|].
  destruct (Z.ltb_spec (zlen (content f)) pos) as [|_]; [lia|]. simpl.
  rewrite zlen_load by lia. f_equal; [|lia]. f_equal.
  - unfold PFile.stream_write. rewrite resize_le by (unfold zlen in *; lia).
    do 3 f_equal. unfold load. rewrite length_resize. lia.
  - rewrite Hwf. rewrite wrap_small by lia.
    destruct (Z.ltb_spec (zlen (content f)) (pos + len)); lia.
Qed.

Lemma PFile_Write_wf f buf len pos :
  pf_wf f → 0 ≤ len → 0 ≤ pos → pos + len < size_modulus →
  pf_wf (PFile.Write f buf len pos).1.
Proof.
  intros Hwf Hlen Hpos Hmax.
  destruct buf as [buf|]; [|done].
  destruct (Z.eqb_spec len 0) as [->|].
  { unfold PFile.Write, PFile.Write_rejects. rewrite Z.eqb_refl. done. }
  destruct (Z.ltb_spec (PFile.GetSize f) pos) as [Hlt|Hge].
  { unfold PFile.Write, PFile.Write_rejects. destruct (len =? 0); simpl; [done|].
    destruct (Z.ltb_spec (PFile.GetSize f) pos); [done|lia]. }
  rewrite (GetSize_wf f Hwf) in Hge.
  rewrite PFile_Write_eq by (try done; lia). unfold pf_wf. simpl.
  rewrite !zlen_app, zlen_load by lia. unfold zlen in *.
  rewrite length_take, length_drop. lia.
Qed.

Lemma PFile_Read_eq f buf len pos :
  pf_wf f →
  PFile.Read f (Some buf) len pos
  = if (len =? 0) || (zlen (content f) <=? pos) then ([], 0)
    else let data := take (Z.to_nat (Z.min len (zlen (content f) - pos)))
                       (drop (Z.to_nat pos) (content f)) in
         (data, zlen data).
Proof.
  intros Hwf. unfold PFile.Read, PFile.Read_rejects. by rewrite (GetSize_wf f Hwf).
Qed.

(** X: the count [Read] returns. *)
Theorem PFile_Read_count f buf len pos :
  pf_wf f → 0 ≤ pos → 0 ≤ len →
  (PFile.Read f buf len pos).2
  = match buf with
    | None => 0
    | Some _ => Z.max 0 (Z.min len (PFile.GetSize f - pos))
    end ∧
  zlen (PFile.Read f buf len pos).1 = (PFile.Read f buf len pos).2 ∧
  (PFile.Read f buf len pos).1
  = take (Z.to_nat (PFile.Read f buf len pos).2) (drop (Z.to_nat pos) (content f)).
Proof.
  intros Hwf Hpos Hlen. destruct buf as [buf|]; [|by rewrite take_0].
  rewrite (GetSize_wf f Hwf), (PFile_Read_eq f buf len pos Hwf).
  destruct (Z.eqb_spec len 0) as [->|Hne]; simpl.
  { split; [lia|]. split; [done|]. by rewrite take_0. }
  destruct (Z.leb_spec (zlen (content f)) pos) as [Hle|Hlt]; simpl.
  { split; [lia|]. split; [done|]. by rewrite take_0. }
  assert (Hn : zlen (take (Z.to_nat (Z.min len (zlen (content f) - pos)))
                  (drop (Z.to_nat pos) (content f)))
               = Z.min len (zlen (content f) - pos)).
  { unfold zlen in *. rewrite length_take, length_drop. lia. }
  rewrite Hn. split; [lia|]. split; [done|]. done.
Qed.

(** X: what was written is read back. *)
Theorem PFile_Read_after_Write f data len pos buf :
  pf_wf f → 0 < len → 0 ≤ pos ≤ PFile.GetSize f → pos + len < size_modulus →
  zlen data = len →
  PFile.Read (PFile.Write f (Some data) len pos).1 (Some buf) len pos = (data, len).
Proof.
  intros Hwf Hlen Hpos Hmax Hdata. rewrite (GetSize_wf f Hwf) in Hpos.
  pose proof (PFile_Write_wf f (Some data) len pos Hwf ltac:(lia) ltac:(lia) Hmax) as Hwf'.
  rewrite (PFile_Read_eq _ buf len pos Hwf').
  rewrite PFile_Write_eq by done. simpl.
  assert (Hload : load len data = data) by (rewrite <- Hdata; apply load_exact).
  rewrite Hload.
  assert (Hl : length (take (Z.to_nat pos) (content f)) = Z.to_nat pos).
  { rewrite length_take. unfold zlen in *. lia. }
  rewrite !zlen_app. 
  destruct (Z.eqb_spec len 0) as [|_]; [lia|].
  match goal with |- context [?a <=? pos] => destruct (Z.leb_spec a pos) as [Hle|_] end.
  { unfold zlen in *. lia. }
  simpl. rewrite drop_app_length' by done.
  rewrite take_app_le by (unfold zlen in *; lia).
  rewrite take_ge by (unfold zlen in *; lia). by rewrite Hdata.
Qed.

(** X: a write does not disturb what lies outside its range. *)
Theorem PFile_Write_frame f data len pos buf n q :
  pf_wf f → 0 < len → 0 ≤ pos ≤ PFile.GetSize f → pos + len < size_modulus →
  0 ≤ q → 0 ≤ n →
  q + n ≤ pos ∨ pos + len ≤ q →
  PFile.Read (PFile.Write f (Some data) len pos).1 (Some buf) n q
  = PFile.Read f (Some buf) n q.
Proof.
  intros Hwf Hlen Hpos Hmax Hq Hn Hdisj. rewrite (GetSize_wf f Hwf) in Hpos.
  pose proof (PFile_Write_wf f (Some data) len pos Hwf ltac:(lia) ltac:(lia) Hmax) as Hwf'.
  rewrite (PFile_Read_eq _ buf n q Hwf'), (PFile_Read_eq _ buf n q Hwf).
  rewrite PFile_Write_eq by done. simpl.
  set (c := content f) in *.
  assert (Hl : length (take (Z.to_nat pos) c) = Z.to_nat pos).
  { rewrite length_take. unfold zlen in *. lia. }
  assert (Hc' : zlen (take (Z.to_nat pos) c ++ load len data ++ drop (Z.to_nat (pos + len)) c)
                = Z.max (zlen c) (pos + len)).
  { rewrite !zlen_app, zlen_load by lia. unfold zlen in *. rewrite Hl, length_drop. lia. }
  rewrite Hc'.
  destruct (Z.eqb_spec n 0) as [|Hn0]; [done|]. simpl.
  destruct Hdisj as [Hbefore|Hafter].
  - destruct (Z.leb_spec (Z.max (zlen c) (pos + len)) q); [lia|].
    destruct (Z.leb_spec (zlen c) q); [lia|].
    rewrite !Z.min_l by lia.
    assert (E : take (Z.to_nat n) (drop (Z.to_nat q)
                  (take (Z.to_nat pos) c ++ load len data ++ drop (Z.to_nat (pos + len)) c))
                = take (Z.to_nat n) (drop (Z.to_nat q) c)).
    { rewrite drop_app_le by lia. rewrite take_app_le by (rewrite length_drop; lia).
      rewrite skipn_firstn_comm, take_take. f_equal. lia. }
    by rewrite E.
  - destruct (Z.leb_spec (zlen c) q) as [Hout|Hin].
    + destruct (Z.leb_spec (Z.max (zlen c) (pos + len)) q); [done|lia].
    + destruct (Z.leb_spec (Z.max (zlen c) (pos + len)) q); [lia|].
      rewrite Z.max_l by lia.
      assert (E : drop (Z.to_nat q)
                    (take (Z.to_nat pos) c ++ load len data ++ drop (Z.to_nat (pos + len)) c)
                  = drop (Z.to_nat q) c).
      { rewrite app_assoc. rewrite drop_app_ge.
        - rewrite drop_drop. f_equal. rewrite length_app, Hl. unfold load.
          rewrite length_resize. lia.
        - rewrite length_app, Hl. unfold load. rewrite length_resize. lia. }
      by rewrite E.
Qed.

(** ** Buffers and pages *)

Lemma lookup_store_at off data (buf : list byte) k :
  0 ≤ off ≤ zlen buf →
  store_at off data buf !! k
  = if decide (k < Z.to_nat off)%nat then buf !! k
    else if decide (k < Z.to_nat off + length data)%nat then data !! (k - Z.to_nat off)%nat
    else buf !! k.
Proof.
  intros Hoff. unfold store_at.
  assert (Hl : length (take (Z.to_nat off) buf) = Z.to_nat off).
  { rewrite length_take. unfold zlen in *. lia. }
  destruct (decide (k < Z.to_nat off)%nat).
  - rewrite lookup_app_l by lia. rewrite lookup_take. by destruct (decide _).
  - rewrite lookup_app_r by lia. rewrite Hl.
    destruct (decide (k < Z.to_nat off + length data)%nat).
    + rewrite lookup_app_l by lia. done.
    + rewrite lookup_app_r by lia. rewrite lookup_drop. f_equal. lia.
Qed.

Lemma zlen_store_at off data (buf : list byte) :
  0 ≤ off ≤ zlen buf →
  zlen (store_at off data buf) = Z.max (zlen buf) (off + zlen data).
Proof.
  intros Hoff. unfold store_at. rewrite !zlen_app. unfold zlen in *.
  rewrite length_take, length_drop. lia.
Qed.

(** A slice of a buffer that a store falls into, and one that it misses. *)
Lemma slice_store_at_inside (a n : nat) off data (c : list byte) :
  (Z.of_nat a ≤ off) → off + zlen data ≤ Z.of_nat (a + n) → (a + n ≤ length c)%nat →
  take n (drop a (store_at off data c))
  = store_at (off - Z.of_nat a) data (take n (drop a c)).
Proof.
  intros Ha Hn Hc. apply list_eq. intros k.
  assert (Hlen : zlen (take n (drop a c)) = Z.of_nat n).
  { unfold zlen. rewrite length_take, length_drop. lia. }
  rewrite lookup_take, lookup_drop.
  rewrite !lookup_store_at by (unfold zlen in *; lia).
  rewrite lookup_take, lookup_drop. unfold zlen in *.
  repeat destruct (decide _); try lia; try done; try (f_equal; lia).
  all: symmetry; apply lookup_ge_None; lia.
Qed.

Lemma slice_store_at_outside (a n : nat) off data (c : list byte) :
  0 ≤ off ≤ zlen c →
  Z.of_nat (a + n) ≤ off ∨ off + zlen data ≤ Z.of_nat a →
  take n (drop a (store_at off data c)) = take n (drop a c).
Proof.
  intros Hoff Hd. apply list_eq. intros k.
  rewrite !lookup_take, !lookup_drop.
  rewrite lookup_store_at by done. unfold zlen in *.
  repeat destruct (decide _); try lia; done.
Qed.

Lemma PFile_Write_store f buf len pos :
  pf_wf f → 0 < len → 0 ≤ pos ≤ zlen (content f) → pos + len < size_modulus →
  PFile.Write f (Some buf) len pos
  = ({| filepath := filepath f;
        content := store_at pos (load len buf) (content f);
        file_size := Z.max (zlen (content f)) (pos + len) |}, len).
Proof.
  intros Hwf Hlen Hpos Hmax. rewrite PFile_Write_eq by done. do 3 f_equal.
  unfold store_at. do 3 f_equal. unfold load. rewrite length_resize. lia.
Qed.

Section PageFacts.
Variable page_size : Z.
Hypothesis page_size_pos : 0 < page_size.

Lemma page_offset c i :
  page_in_file page_size c i →
  0 ≤ st_size + i * page_size ∧ st_size + i * page_size + page_size ≤ zlen c.
Proof. intros [Hi Hc]. unfold st_size in *. nia. Qed.

Lemma page_of_store_at_same c i off data :
  page_in_file page_size c i → 0 ≤ off → off + zlen data ≤ page_size →
  page_of page_size (store_at (st_size + i * page_size + off) data c) i
  = store_at off data (page_of page_size c i).
Proof.
  intros Hin Hoff Hfit. apply page_offset in Hin. unfold page_of.
  set (a := st_size + i * page_size) in *.
  replace (Z.to_nat a) with (Z.to_nat a + 0)%nat by lia.
  replace (a + off) with (off + a) by lia.
  pose proof (slice_store_at_inside (Z.to_nat a) (Z.to_nat page_size) (off + a) data c) as H.
  rewrite Nat.add_0_r. rewrite H; [f_equal; lia| lia | lia | unfold zlen in *; lia].
Qed.

Lemma page_of_store_at_other c i j off data :
  page_in_file page_size c i → 0 ≤ j → j ≠ i → 0 ≤ off → off + zlen data ≤ page_size →
  page_of page_size (store_at (st_size + i * page_size + off) data c) j
  = page_of page_size c j.
Proof.
  intros Hin Hj Hne Hoff Hfit. pose proof (zlen_nonneg data).
  assert (Hsep : (j + 1) * page_size ≤ i * page_size ∨ (i + 1) * page_size ≤ j * page_size).
  { destruct (Z.lt_ge_cases j i); [left|right]; nia. }
  apply page_offset in Hin. unfold page_of.
  assert (0 ≤ j * page_size) by nia.
  apply slice_store_at_outside; [lia|]. unfold st_size in *. lia.
Qed.

Lemma zlen_store_at_page c i off data :
  page_in_file page_size c i → 0 ≤ off → off + zlen data ≤ page_size →
  zlen (store_at (st_size + i * page_size + off) data c) = zlen c.
Proof.
  intros Hin Hoff Hfit. apply page_offset in Hin. pose proof (zlen_nonneg data).
  rewrite zlen_store_at by lia. lia.
Qed.

Lemma page_in_file_store_at c i j off data :
  page_in_file page_size c i → 0 ≤ off → off + zlen data ≤ page_size →
  page_in_file page_size (store_at (st_size + i * page_size + off) data c) j
  ↔ page_in_file page_size c j.
Proof.
  intros Hin Hoff Hfit. unfold page_in_file. by rewrite zlen_store_at_page.
Qed.
End PageFacts.

(** ** The map of backing files *)

Lemma compare_elements_Eq a b : compare_elements a b = Eq ↔ a = b.
Proof.
  revert b. induction a as [|x a IH]; intros [|y b]; simpl; try done.
  destruct (String.compare x y) eqn:E.
  - apply String.compare_eq_iff in E as ->. rewrite IH. split; congruence.
  - split; [done|]. intros [= -> _]. 
    assert (String.compare y y = Eq) as E'.
    { clear. induction y as [|c y IH]; simpl; [done|].
      assert (Ascii.compare c c = Eq) as ->; [|exact IH].
      unfold Ascii.compare. apply N.compare_refl. }
    congruence.
  - split; [done|]. intros [= -> _].
    assert (String.compare y y = Eq) as E'.
    { clear. induction y as [|c y IH]; simpl; [done|].
      assert (Ascii.compare c c = Eq) as ->; [|exact IH].
      unfold Ascii.compare. apply N.compare_refl. }
    congruence.
Qed.

(** Two pathnames are the same path when they are equal, or agree on
    having a root directory and on their elements. *)
Lemma path_eqb_spec p q :
  path_eqb p q = true
  ↔ p = q ∨ (has_root_directory p = has_root_directory q ∧ elements p = elements q).
Proof.
  unfold path_eqb, path_compare.
  destruct (String.eqb_spec p q) as [->|Hne]; [by split; [left|]|].
  destruct (has_root_directory p), (has_root_directory q);
    try (split; [done|intros [?|[? ?]]; congruence]).
  all: destruct (compare_elements (elements p) (elements q)) eqn:E.
  all: try (apply compare_elements_Eq in E; split; [by right|done]).
  all: split; [done|]; intros [?|[_ E']]; [done|].
  all: apply compare_elements_Eq in E'; congruence.
Qed.

Lemma path_eqb_refl p : path_eqb p p = true.
Proof. apply path_eqb_spec. by left. Qed.

Lemma path_eqb_sym p q : path_eqb p q = true → path_eqb q p = true.
Proof.
  intros H. apply path_eqb_spec in H. apply path_eqb_spec.
  destruct H as [->|[? ?]]; [by left|by right].
Qed.

Lemma path_eqb_trans p q r :
  path_eqb p q = true → path_eqb q r = true → path_eqb p r = true.
Proof.
  intros H1 H2. apply path_eqb_spec in H1, H2. apply path_eqb_spec.
  destruct H1 as [->|[? ?]]; [done|]. destruct H2 as [<-|[? ?]]; [by right|].
  right. split; congruence.
Qed.

(** Keys that are the same path find the same entry. *)
Lemma pf_lookup_proper p q l : path_eqb p q = true → pf_lookup p l = pf_lookup q l.
Proof.
  intros H. induction l as [|[k f] l IH]; simpl; [done|].
  destruct (path_eqb p k) eqn:Ep, (path_eqb q k) eqn:Eq; try done.
  - assert (path_eqb q k = true) by eauto using path_eqb_sym, path_eqb_trans. congruence.
  - assert (path_eqb p k = true) by eauto using path_eqb_sym, path_eqb_trans. congruence.
Qed.

Lemma pf_lookup_update p q f' l :
  pf_lookup q (pf_update p f' l)
  = if path_eqb q p then (fun _ => f') <$> pf_lookup q l else pf_lookup q l.
Proof.
  induction l as [|[k g] l IH]; simpl; [by destruct (path_eqb q p)|].
  destruct (path_eqb p k) eqn:Ep; simpl.
  - destruct (path_eqb q k) eqn:Eq.
    + assert (path_eqb q p = true) as -> by eauto using path_eqb_sym, path_eqb_trans. done.
    + destruct (path_eqb q p) eqn:Eqp; [|done].
      assert (path_eqb q k = true) by eauto using path_eqb_sym, path_eqb_trans. congruence.
  - destruct (path_eqb q k) eqn:Eq; [|exact IH].
    destruct (path_eqb q p) eqn:Eqp; [|done].
    assert (path_eqb p k = true) by eauto using path_eqb_sym, path_eqb_trans. congruence.
Qed.

Lemma pf_lookup_update_eq p f f' l :
  pf_lookup p l = Some f → pf_lookup p (pf_update p f' l) = Some f'.
Proof. intros H. by rewrite pf_lookup_update, path_eqb_refl, H. Qed.

Lemma pf_lookup_update_ne p q f' l :
  path_eqb q p = false → pf_lookup q (pf_update p f' l) = pf_lookup q l.
Proof. intros H. by rewrite pf_lookup_update, H. Qed.

Lemma pf_update_keys p f' l : (pf_update p f' l).*1 = l.*1.
Proof.
  induction l as [|[k g] l IH]; simpl; [done|].
  destruct (path_eqb p k); simpl; [done|]. f_equal. exact IH.
Qed.

(** ** Calls through a [PFile&] *)

Lemma pfile_Write_ok p f buf len pos s :
  pf_lookup p (physical_files s) = Some f →
  ∃ s', pfile_Write p buf len pos s = Ok ((PFile.Write f buf len pos).2, s') ∧
        written p (PFile.Write f buf len pos).1 s s'.
Proof.
  intros Hp. unfold pfile_Write, physical_files_at, lock_guard, log. munfold.
  rewrite Hp. simpl.
  destruct (PFile.Write f buf len pos) as [f' n].
  destruct (PFile.Write_rejects f buf len pos); simpl; eexists; (split; [reflexivity|done]).
Qed.

Lemma pfile_GetSize_ok p f s :
  pf_lookup p (physical_files s) = Some f →
  pfile_GetSize p s = Ok (PFile.GetSize f, s).
Proof.
  intros Hp. unfold pfile_GetSize, physical_files_at. munfold. by rewrite Hp.
Qed.

Lemma pfile_Append_ok p f buf len s :
  pf_lookup p (physical_files s) = Some f →
  ∃ s', pfile_Append p buf len s = Ok ((PFile.Write f buf len (PFile.GetSize f)).2, s') ∧
        written p (PFile.Write f buf len (PFile.GetSize f)).1 s s'.
Proof.
  intros Hp. unfold pfile_Append. rewrite (bind_Ok _ _ _ _ _ (pfile_GetSize_ok p f s Hp)).
  by apply pfile_Write_ok.
Qed.

(** ** Numbers stored in pages *)

Lemma size_t_bytes_load n : load st_size (size_t_bytes n) = size_t_bytes n.
Proof.
  unfold load. rewrite <- (length_size_t_bytes n). apply resize_all.
Qed.

Lemma read_size_t_store_at (pg : list byte) off v :
  0 ≤ off → off + st_size ≤ zlen pg → 0 ≤ v < size_modulus →
  read_size_t (store_at off (size_t_bytes v) pg) off = Some v.
Proof.
  intros Hoff Hfit Hv. unfold read_size_t.
  assert (Hd : zlen (size_t_bytes v) = st_size).
  { unfold zlen. rewrite length_size_t_bytes. unfold st_size. lia. }
  rewrite zlen_store_at by (unfold st_size in *; lia). rewrite Hd.
  destruct (Z.leb_spec 0 off); [|lia].
  destruct (Z.leb_spec (off + st_size) (Z.max (zlen pg) (off + st_size))); [|lia]. simpl.
  rewrite (slice_store_at_inside (Z.to_nat off) (Z.to_nat st_size) off)
    by (unfold zlen, st_size in *; lia).
  replace (off - Z.of_nat (Z.to_nat off)) with 0 by lia.
  rewrite store_at_whole.
  - by rewrite Z_of_size_t_bytes, wrap_small.
  - rewrite length_take, length_size_t_bytes. lia.
Qed.

Lemma read_size_t_store_at_other (pg : list byte) off data pos :
  0 ≤ off ≤ zlen pg → off + zlen data ≤ zlen pg →
  pos + st_size ≤ off ∨ off + zlen data ≤ pos →
  read_size_t (store_at off data pg) pos = read_size_t pg pos.
Proof.
  intros Hoff Hfit Hd. unfold read_size_t. pose proof (zlen_nonneg data).
  rewrite zlen_store_at by done. rewrite Z.max_l by lia.
  destruct ((0 <=? pos) && (pos + st_size <=? zlen pg)) eqn:E; [|done].
  apply andb_prop in E as [E1 E2]. apply Z.leb_le in E1, E2.
  rewrite slice_store_at_outside; [done|done|]. unfold st_size in *. lia.
Qed.

Lemma drop_store_at_0 data (pg : list byte) :
  drop (length data) (store_at 0 data pg) = drop (length data) pg.
Proof.
  unfold store_at. change (Z.to_nat 0) with 0%nat. rewrite take_0. cbn [app Nat.add].
  by rewrite drop_app_length.
Qed.

Lemma take_store_at off data (pg : list byte) :
  0 ≤ off ≤ zlen pg →
  take (Z.to_nat off) (store_at off data pg) = take (Z.to_nat off) pg.
Proof.
  intros Hoff. unfold store_at. rewrite take_app_length'; [done|].
  rewrite length_take. unfold zlen in *. lia.
Qed.

(** ** Lengths, links and counters on disk *)

Section DiskNumbers.
Variable page_size : Z.
Hypothesis page_size_range : 2 * st_size ≤ page_size.

(** A write of [st_size] bytes at offset [off] of page [i]. *)
Lemma pfile_Write_size_t p f i off v s :
  pf_lookup p (physical_files s) = Some f → pf_wf f → zlen (content f) < size_modulus →
  page_in_file page_size (content f) i → 0 ≤ off → off + st_size ≤ page_size →
  ∃ s', pfile_Write p (Some (size_t_bytes v)) st_size (st_size + i * page_size + off) s
        = Ok (st_size, s') ∧
        written p {| filepath := filepath f;
                     content := store_at (st_size + i * page_size + off) (size_t_bytes v)
                                  (content f);
                     file_size := zlen (content f) |} s s'.
Proof.
  intros Hp Hwf Hmax Hin Hoff Hfit.
  destruct (pfile_Write_ok p f (Some (size_t_bytes v)) st_size
              (st_size + i * page_size + off) s Hp) as (s' & E & Hw).
  pose proof (page_offset page_size ltac:(unfold st_size in *; lia) (content f) i Hin) as Hpo.
  rewrite PFile_Write_store in E, Hw by (try done; unfold st_size in *; lia).
  rewrite size_t_bytes_load in Hw. simpl in E, Hw.
  rewrite Z.max_l in Hw by (unfold st_size in *; lia).
  by exists s'.
Qed.

(** X: the length [SetFileLength] stores in the first page of a file is
    the one [GetFileLength] reads from that page; the rest of the page, the
    other pages and the size of the backing file are as before. *)
Theorem SetFileLength_GetFileLength p f i len s :
  pf_lookup p (physical_files s) = Some f → pf_wf f → zlen (content f) < size_modulus →
  page_in_file page_size (content f) i → 0 ≤ len < size_modulus →
  ∃ s' f', SetFileLength page_size p i len s = Ok (tt, s') ∧
           pf_lookup p (physical_files s') = Some f' ∧
           GetFileLength (page_of page_size (content f') i) = Ok len ∧
           drop (Z.to_nat st_size) (page_of page_size (content f') i)
           = drop (Z.to_nat st_size) (page_of page_size (content f) i) ∧
           (∀ j, 0 ≤ j → j ≠ i →
                 page_of page_size (content f') j = page_of page_size (content f) j) ∧
           PFile.GetSize f' = PFile.GetSize f.
Proof.
  intros Hp Hwf Hmax Hin Hlen.
  assert (Hps : 0 < page_size) by (unfold st_size in *; lia).
  pose proof (page_offset page_size Hps (content f) i Hin) as Hpo.
  pose proof (page_of_length page_size ltac:(unfold st_size in *; lia) _ _ Hin) as Hpl.
  destruct (pfile_Write_size_t p f i 0 len s Hp Hwf Hmax Hin ltac:(lia)
              ltac:(unfold st_size in *; lia)) as (s' & E & Hw).
  unfold SetFileLength.
  replace (wrap (i * page_size + start)) with (st_size + i * page_size + 0)
    by (rewrite wrap_small; unfold start, st_size in *; lia).
  rewrite (bind_Ok _ _ _ _ _ E). eexists _, _. split; [reflexivity|].
  destruct Hw as (Hphys & _). split; [rewrite Hphys; by eapply pf_lookup_update_eq|].
  assert (Hd : zlen (size_t_bytes len) = st_size).
  { unfold zlen. rewrite length_size_t_bytes. unfold st_size. lia. }
  cbn [content].
  rewrite (page_of_store_at_same page_size Hps _ _ _ _ Hin) by (rewrite ?Hd; unfold st_size in *; lia).
  split; [|split; [|split]].
  - unfold GetFileLength. rewrite read_size_t_store_at by (unfold st_size in *; lia). done.
  - rewrite <- (length_size_t_bytes len). apply drop_store_at_0.
  - intros j Hj Hne.
    apply (page_of_store_at_other page_size Hps _ _ _ _ _ Hin); rewrite ?Hd; try done; unfold st_size in *; lia.
  - unfold PFile.GetSize. cbn [file_size content].
    rewrite (zlen_store_at_page page_size Hps _ _ _ _ Hin) by (rewrite ?Hd; unfold st_size in *; lia).
    rewrite Hwf. by destruct (zlen (content f) =? 0).
Qed.

(** X: the link [SetNextPage] stores at the end of a page is the one
    [GetNextPage] reads from that page; the rest of the page, the other
    pages and the size of the backing file are as before. *)
Theorem SetNextPage_GetNextPage p f i next s :
  pf_lookup p (physical_files s) = Some f → pf_wf f → zlen (content f) < size_modulus →
  page_in_file page_size (content f) i → 0 ≤ next < size_modulus →
  ∃ s' f', SetNextPage page_size p i next s = Ok (tt, s') ∧
           pf_lookup p (physical_files s') = Some f' ∧
           GetNextPage page_size (page_of page_size (content f') i) = Ok next ∧
           take (Z.to_nat (page_size - st_size)) (page_of page_size (content f') i)
           = take (Z.to_nat (page_size - st_size)) (page_of page_size (content f) i) ∧
           (∀ j, 0 ≤ j → j ≠ i →
                 page_of page_size (content f') j = page_of page_size (content f) j) ∧
           PFile.GetSize f' = PFile.GetSize f.
Proof.
  intros Hp Hwf Hmax Hin Hnext.
  assert (Hps : 0 < page_size) by (unfold st_size in *; lia).
  pose proof (page_offset page_size Hps (content f) i Hin) as Hpo.
  pose proof (page_of_length page_size ltac:(unfold st_size in *; lia) _ _ Hin) as Hpl.
  destruct (pfile_Write_size_t p f i (page_size - st_size) next s Hp Hwf Hmax Hin
              ltac:(unfold st_size in *; lia) ltac:(lia)) as (s' & E & Hw).
  unfold SetNextPage.
  replace (wrap ((i + 1) * page_size - st_size + start))
    with (st_size + i * page_size + (page_size - st_size))
    by (rewrite wrap_small; unfold start, st_size in *; lia).
  rewrite (bind_Ok _ _ _ _ _ E). eexists _, _. split; [reflexivity|].
  destruct Hw as (Hphys & _). split; [rewrite Hphys; by eapply pf_lookup_update_eq|].
  assert (Hd : zlen (size_t_bytes next) = st_size).
  { unfold zlen. rewrite length_size_t_bytes. unfold st_size. lia. }
  cbn [content].
  rewrite (page_of_store_at_same page_size Hps _ _ _ _ Hin) by (rewrite ?Hd; unfold st_size in *; lia).
  split; [|split; [|split]].
  - unfold GetNextPage. rewrite wrap_small by (unfold st_size in *; lia).
    rewrite read_size_t_store_at by (unfold st_size in *; lia). done.
  - apply take_store_at. unfold st_size in *. lia.
  - intros j Hj Hne.
    apply (page_of_store_at_other page_size Hps _ _ _ _ _ Hin); rewrite ?Hd; try done; unfold st_size in *; lia.
  - unfold PFile.GetSize. cbn [file_size content].
    rewrite (zlen_store_at_page page_size Hps _ _ _ _ Hin) by (rewrite ?Hd; unfold st_size in *; lia).
    rewrite Hwf. by destruct (zlen (content f) =? 0).
Qed.
End DiskNumbers.

(** [SetFileLength] and [SetNextPage] on page 1 of the sample file. *)
Lemma SetFileLength_GetFileLength_witness :
  ∃ s' f', SetFileLength Sample.page_size Sample.host 1 12 Sample.opened = Ok (tt, s') ∧
           pf_lookup Sample.host (physical_files s') = Some f' ∧
           GetFileLength (page_of Sample.page_size (content f') 1) = Ok 12.
Proof.
  destruct (SetFileLength_GetFileLength Sample.page_size ltac:(vm_compute; discriminate)
              Sample.host Sample.backing_file 1 12 Sample.opened)
    as (s' & f' & E & Hp & Hl & _).
  - reflexivity.
  - reflexivity.
  - reflexivity.
  - split; [lia|vm_compute; discriminate].
  - split; [lia|reflexivity].
  - by exists s', f'.
Defined.

Lemma SetNextPage_GetNextPage_witness :
  ∃ s' f', SetNextPage Sample.page_size Sample.host 1 2 Sample.opened = Ok (tt, s') ∧
           pf_lookup Sample.host (physical_files s') = Some f' ∧
           GetNextPage Sample.page_size (page_of Sample.page_size (content f') 1) = Ok 2.
Proof.
  destruct (SetNextPage_GetNextPage Sample.page_size ltac:(vm_compute; discriminate)
              Sample.host Sample.backing_file 1 2 Sample.opened)
    as (s' & f' & E & Hp & Hl & _).
  - reflexivity.
  - reflexivity.
  - reflexivity.
  - split; [lia|vm_compute; discriminate].
  - split; [lia|reflexivity].
  - by exists s', f'.
Defined.

(** ** The file counter *)

(** X: on a backing file that holds its header, [IncrementNumOfFiles]
    adds one to the header and to [num_of_files] and leaves everything
    behind the header as it is; on a shorter file it throws
    [FileReadingError]. *)
Theorem IncrementNumOfFiles_spec p f s :
  pf_lookup p (physical_files s) = Some f → pf_wf f → zlen (content f) < size_modulus →
  (st_size ≤ zlen (content f) →
   ∃ s' f', IncrementNumOfFiles p s = Ok (tt, s') ∧
            pf_lookup p (physical_files s') = Some f' ∧
            file_header (content f') = wrap (file_header (content f) + 1) ∧
            drop (Z.to_nat st_size) (content f') = drop (Z.to_nat st_size) (content f) ∧
            num_of_files s' = wrap (num_of_files s + 1) ∧
            virtual_files s' = virtual_files s ∧ virtual_dirs s' = virtual_dirs s) ∧
  (zlen (content f) < st_size → IncrementNumOfFiles p s = Throw FileReadingError).
Proof.
  intros Hp Hwf Hmax. split.
  - intros Hlen. unfold IncrementNumOfFiles.
    destruct (pfile_Read_ok p f (Some (zeroes st_size)) st_size 0 s Hp)
      as (s1 & E1 & Hd1 & Hf1 & Hp1 & Hn1).
    rewrite (bind_Ok _ _ _ _ _ E1). rewrite (PFile_Read_header f _ Hwf Hlen).
    rewrite Z.eqb_refl. cbn [negb].
    rewrite store_at_whole
      by (unfold zeroes; rewrite length_replicate, length_take; unfold zlen in *; lia).
    fold (file_header (content f)).
    rewrite <- Hp1 in Hp.
    destruct (pfile_Write_ok p f (Some (size_t_bytes (wrap (file_header (content f) + 1))))
                st_size 0 s1 Hp) as (s2 & E2 & Hw).
    rewrite PFile_Write_store in E2, Hw by (try done; unfold st_size in *; lia).
    rewrite size_t_bytes_load in Hw. cbn [fst snd] in E2, Hw.
    rewrite (bind_Ok _ _ _ _ _ E2). rewrite Z.eqb_refl. cbn [negb].
    destruct Hw as (Hphys & Hf2 & Hd2 & _ & Hn2).
    unfold modify. eexists _, _. split; [reflexivity|].
    cbn [physical_files num_of_files virtual_files virtual_dirs set_num_of_files].
    split; [rewrite Hphys; by eapply pf_lookup_update_eq|]. cbn [content].
    split; [|split; [|split; [|split]]]; try congruence.
    + set (v := wrap (file_header (content f) + 1)).
      assert (Hv : wrap v = v) by (unfold v, wrap; by rewrite Z.mod_mod).
      clearbody v. unfold file_header.
      pose proof (slice_store_at_inside 0 (Z.to_nat st_size) 0
                    (size_t_bytes v) (content f)) as H.
      rewrite !drop_0 in H. rewrite H.
      * rewrite store_at_whole by (rewrite length_take, length_size_t_bytes; lia).
        by rewrite Z_of_size_t_bytes.
      * lia.
      * unfold zlen. rewrite length_size_t_bytes. lia.
      * unfold zlen in *. lia.
    + rewrite <- (length_size_t_bytes (wrap (file_header (content f) + 1))).
      apply drop_store_at_0.
  - intros Hlen. unfold IncrementNumOfFiles.
    destruct (pfile_Read_ok p f (Some (zeroes st_size)) st_size 0 s Hp) as (s1 & E1 & _).
    rewrite (bind_Ok _ _ _ _ _ E1).
    destruct (PFile_Read_count f (Some (zeroes st_size)) st_size 0 Hwf) as (Hn & _);
      [lia|unfold st_size; lia|].
    destruct (PFile.Read f (Some (zeroes st_size)) st_size 0) as [data n]. simpl in Hn.
    rewrite (GetSize_wf f Hwf) in Hn.
    destruct (Z.eqb_spec n st_size) as [Heq|]; [|done].
    pose proof (zlen_nonneg (content f)). unfold st_size in *. lia.
Qed.

Lemma IncrementNumOfFiles_spec_witness :
  ∃ s' f', IncrementNumOfFiles Sample.host Sample.opened = Ok (tt, s') ∧
           pf_lookup Sample.host (physical_files s') = Some f' ∧
           file_header (content f') = 2 ∧
           num_of_files s' = 1.
Proof.
  destruct (proj1 (IncrementNumOfFiles_spec Sample.host Sample.backing_file Sample.opened
                     ltac:(reflexivity) ltac:(reflexivity) ltac:(reflexivity)))
    as (s' & f' & E & Hp & Hh & _ & Hn & _).
  - vm_compute. discriminate.
  - exists s', f'. split; [done|]. split; [done|]. split; [exact Hh|exact Hn].
Defined.

(** ** New pages *)

Lemma store_at_end data (c : list byte) : store_at (zlen c) data c = c ++ data.
Proof.
  unfold store_at, zlen. rewrite Nat2Z.id, firstn_all, drop_ge by lia.
  by rewrite app_nil_r.
Qed.

Lemma forallb_pf_update (P : path * PhysicalFile → bool) p f' l :
  (∀ k, P (k, f') = true) → forallb P l = true → forallb P (pf_update p f' l) = true.
Proof.
  intros Hf. induction l as [|[k g] l IH]; simpl; [done|].
  intros H. apply andb_prop in H as [H1 H2].
  destruct (path_eqb p k); simpl; [by rewrite Hf|]. by rewrite H1, IH.
Qed.

(** X: [CreateEmptyPage] appends [page_size] zero bytes to the backing
    file and changes no other backing file and no index; backing files that
    were page aligned still are. *)
Theorem CreateEmptyPage_appends page_size p f s :
  0 < page_size →
  pf_lookup p (physical_files s) = Some f → pf_wf f →
  zlen (content f) + page_size < size_modulus →
  ∃ s' f', CreateEmptyPage page_size p s = Ok (tt, s') ∧
           pf_lookup p (physical_files s') = Some f' ∧
           content f' = content f ++ zeroes page_size ∧
           PFile.GetSize f' = PFile.GetSize f + page_size ∧
           (∀ q, path_eqb q p = false →
                 pf_lookup q (physical_files s') = pf_lookup q (physical_files s)) ∧
           virtual_files s' = virtual_files s ∧
           virtual_dirs s' = virtual_dirs s ∧
           num_of_files s' = num_of_files s ∧
           (page_aligned page_size s = true → page_aligned page_size s' = true).
Proof.
  intros Hps Hp Hwf Hmax. unfold CreateEmptyPage.
  destruct (pfile_Append_ok p f (Some (zeroes page_size)) page_size s Hp) as (s' & E & Hw).
  pose proof (zlen_nonneg (content f)).
  rewrite (GetSize_wf f Hwf) in E, Hw.
  rewrite PFile_Write_store in E, Hw by (try done; lia).
  assert (Hload : load page_size (zeroes page_size) = zeroes page_size).
  { rewrite <- (zlen_zeroes page_size) at 1 by lia. apply load_exact. }
  rewrite Hload, store_at_end in Hw. cbn [fst snd] in E, Hw.
  rewrite (bind_Ok _ _ _ _ _ E). destruct Hw as (Hphys & Hf & Hd & _ & Hn).
  eexists _, _. split; [reflexivity|].
  split; [rewrite Hphys; by eapply pf_lookup_update_eq|]. cbn [content].
  split; [done|].
  assert (Hsize : PFile.GetSize {| filepath := filepath f;
                                   content := content f ++ zeroes page_size;
                                   file_size := Z.max (zlen (content f))
                                                  (zlen (content f) + page_size) |}
                  = PFile.GetSize f + page_size).
  { rewrite (GetSize_wf f Hwf). unfold PFile.GetSize. cbn [file_size content].
    destruct (Z.eqb_spec (Z.max (zlen (content f)) (zlen (content f) + page_size)) 0); lia. }
  split; [done|].
  split; [intros q Hq; rewrite Hphys; by apply pf_lookup_update_ne|].
  split; [done|]. split; [done|]. split; [done|].
  intros Hall. unfold page_aligned in *. rewrite Hphys.
  apply forallb_pf_update; [|done]. intros k. cbn [snd]. rewrite Hsize.
  assert (Hal : ((PFile.GetSize f - st_size) mod page_size =? 0) = true).
  { clear - Hp Hall. revert Hp Hall. generalize (physical_files s) as l.
    induction l as [|[k g] l IH]; simpl; [done|]. intros Hp Hall.
    apply andb_prop in Hall as [H1 H2].
    destruct (path_eqb p k); [by injection Hp as <-|by apply IH]. }
  replace (PFile.GetSize f + page_size - st_size)
    with (PFile.GetSize f - st_size + 1 * page_size) by lia.
  by rewrite Z.mod_add by lia.
Qed.

Lemma CreateEmptyPage_appends_witness :
  ∃ s' f', CreateEmptyPage Sample.page_size Sample.host Sample.opened = Ok (tt, s') ∧
           pf_lookup Sample.host (physical_files s') = Some f' ∧
           content f' = Sample.bytes ++ zeroes Sample.page_size.
Proof.
  destruct (CreateEmptyPage_appends Sample.page_size Sample.host Sample.backing_file
              Sample.opened ltac:(reflexivity) ltac:(reflexivity) ltac:(reflexivity)
              ltac:(reflexivity))
    as (s' & f' & E & Hp & Hc & _).
  by exists s', f'.
Defined.

(** ** Searching a page *)

Lemma Byte_eqb_eq (a b : byte) : Byte.eqb a b = true ↔ a = b.
Proof. split; [apply Byte.byte_dec_bl|apply Byte.byte_dec_lb]. Qed.

Lemma is_prefix_spec (q l : list byte) : is_prefix q l = true ↔ take (length q) l = q.
Proof.
  revert l. induction q as [|a q IH]; intros [|b l]; simpl; try done.
  rewrite andb_true_iff, Byte_eqb_eq, IH. split; [intros [-> ->]; done|].
  intros [= -> ->]. done.
Qed.

Lemma find_from_spec (q l : list byte) i :
  find_from q l i = npos ∧ (∀ k : nat, is_prefix q (drop k l) = false) ∨
  ∃ k : nat, find_from q l i = i + Z.of_nat k ∧ (k ≤ length l)%nat ∧
             is_prefix q (drop k l) = true ∧
             ∀ j : nat, (j < k)%nat → is_prefix q (drop j l) = false.
Proof.
  revert i. induction l as [|b l IH]; intros i.
  - cbn [find_from]. destruct (is_prefix q []) eqn:E.
    + right. exists 0%nat. simpl. split; [lia|]. split; [lia|]. split; [done|]. lia.
    + left. split; [done|]. intros k. by rewrite drop_nil.
  - cbn [find_from]. destruct (is_prefix q (b :: l)) eqn:E.
    + right. exists 0%nat. simpl. split; [lia|]. split; [lia|]. split; [done|]. lia.
    + destruct (IH (i + 1)) as [[Hn Hall]|(k & Hr & Hk & Hp & Hleast)].
      * left. split; [done|]. intros [|k]; [done|]. apply Hall.
      * right. exists (S k). split; [rewrite Hr; lia|]. split; [simpl; lia|].
        split; [done|]. intros [|j] Hj; [done|]. apply Hleast. lia.
Qed.

(** X: [FindFileInPage] returns [npos] when the query stands nowhere in
    the page, and otherwise the least offset at which it stands. *)
Theorem FindFileInPage_least pg file_name type :
  zlen pg < npos →
  let query := file_query type file_name in
  let r := FindFileInPage pg file_name type in
  (r = npos ∧ ∀ pos, ¬ occurs_at query pg pos) ∨
  (r ≠ npos ∧ r ≤ zlen pg ∧ occurs_at query pg r ∧ ∀ pos, occurs_at query pg pos → r ≤ pos).
Proof.
  intros Hlen query r. subst r. unfold FindFileInPage. fold (file_query type file_name).
  fold query.
  destruct (find_from_spec query pg 0) as [[Hn Hall]|(k & Hr & Hk & Hp & Hleast)].
  - left. split; [done|]. intros pos [Hpos Ho]. apply is_prefix_spec in Ho.
    by rewrite Hall in Ho.
  - right. rewrite Hr. unfold zlen in *. split; [lia|]. split; [lia|]. split.
    + split; [lia|]. apply is_prefix_spec. rewrite Z.add_0_l, Nat2Z.id. done.
    + intros pos [Hpos Ho]. apply is_prefix_spec in Ho.
      destruct (Z.le_gt_cases (0 + Z.of_nat k) pos); [done|].
      rewrite (Hleast (Z.to_nat pos)) in Ho by lia. done.
Qed.

Lemma FindFileInPage_least_witness :
  let query := file_query FileType.file "/f" in
  let r := FindFileInPage Sample.page0 "/f" FileType.file in
  (r = npos ∧ ∀ pos, ¬ occurs_at query Sample.page0 pos) ∨
  (r ≠ npos ∧ r ≤ zlen Sample.page0 ∧ occurs_at query Sample.page0 r ∧
   ∀ pos, occurs_at query Sample.page0 pos → r ≤ pos).
Proof.
  apply (FindFileInPage_least Sample.page0 "/f" FileType.file). vm_compute. reflexivity.
Defined.

(** ** Records in a page *)

Lemma occurs_at_bound (q l : list byte) pos :
  occurs_at q l pos → q ≠ [] → pos + zlen q ≤ zlen l.
Proof.
  intros [Hpos H] Hq. apply (f_equal length) in H.
  rewrite length_take, length_drop in H. unfold zlen.
  assert (length q ≠ 0%nat) by (destruct q; [done|simpl; lia]). lia.
Qed.

Lemma occurs_at_app (q1 q2 l : list byte) pos :
  occurs_at (q1 ++ q2) l pos → occurs_at q1 l pos ∧ occurs_at q2 l (pos + zlen q1).
Proof.
  intros [Hpos H]. rewrite length_app in H. split; (split; [unfold zlen; lia|]).
  - apply (f_equal (take (length q1))) in H.
    rewrite take_take, take_app_length in H.
    replace (length q1 `min` (length q1 + length q2))%nat with (length q1) in H by lia.
    exact H.
  - apply (f_equal (drop (length q1))) in H.
    rewrite drop_app_length in H.
    rewrite skipn_firstn_comm, drop_drop in H.
    replace (length q1 + length q2 - length q1)%nat with (length q2) in H by lia.
    replace (Z.to_nat (pos + zlen q1)) with (Z.to_nat pos + length q1)%nat
      by (unfold zlen; lia).
    exact H.
Qed.

Lemma occurs_at_cons b (q l : list byte) pos :
  occurs_at (b :: q) l pos → l !! Z.to_nat pos = Some b ∧ occurs_at q l (pos + 1).
Proof.
  intros H. change (b :: q) with ([b] ++ q) in H. apply occurs_at_app in H as [[Hpos H1] H2].
  split; [|exact H2]. simpl in H1.
  rewrite <- (Nat.add_0_r (Z.to_nat pos)), <- lookup_drop.
  destruct (drop (Z.to_nat pos) l); [done|]. by injection H1 as ->.
Qed.

Lemma occurs_at_size_t v (l : list byte) pos :
  occurs_at (size_t_bytes v) l pos → 0 ≤ v < size_modulus → read_size_t l pos = Some v.
Proof.
  intros H Hv.
  assert (Hne : size_t_bytes v ≠ []).
  { intros E. apply (f_equal length) in E. rewrite length_size_t_bytes in E. done. }
  pose proof (occurs_at_bound _ _ _ H Hne) as Hb.
  assert (Hz : zlen (size_t_bytes v) = st_size).
  { unfold zlen. rewrite length_size_t_bytes. unfold st_size. lia. }
  rewrite Hz in Hb. destruct H as [Hpos H]. rewrite length_size_t_bytes in H.
  unfold read_size_t.
  destruct (Z.leb_spec 0 pos); [|lia].
  destruct (Z.leb_spec (pos + st_size) (zlen l)) as [|Hgt].
  - simpl. rewrite H, Z_of_size_t_bytes. by rewrite wrap_small.
  - lia.
Qed.

Lemma file_info_query type file next_page :
  file_info type file next_page = file_query type file ++ size_t_bytes next_page.
Proof.
  unfold file_info, file_query. rewrite <- app_comm_cons. by rewrite app_assoc.
Qed.

Lemma zlen_file_query type file :
  zlen (file_query type file) = 1 + st_size + zlen (list_byte_of_string file).
Proof.
  unfold file_query, zlen. cbn [length]. rewrite length_app, length_size_t_bytes.
  unfold st_size. lia.
Qed.

Lemma zlen_file_info type file next_page :
  zlen (file_info type file next_page)
  = 1 + st_size + zlen (list_byte_of_string file) + st_size.
Proof.
  rewrite file_info_query, zlen_app, zlen_file_query. unfold zlen.
  rewrite length_size_t_bytes. unfold st_size. lia.
Qed.

Lemma FileType_char_nonzero type : Byte.eqb (FileType.char type) x00 = false.
Proof. by destruct type. Qed.

Lemma record_at_file_info (pg : list byte) pos type file next_page :
  zlen pg < size_modulus → 0 ≤ next_page < size_modulus →
  occurs_at (file_info type file next_page) pg pos →
  record_at pg pos
  = Some ({| Info.type := FileType.char type; Info.name := file; Info.page := next_page |},
          pos + zlen (file_info type file next_page)).
Proof.
  intros Hmax Hnext H.
  pose proof (occurs_at_bound _ _ _ H ltac:(done)) as Hb.
  rewrite zlen_file_info in *. pose proof H as [Hpos _].
  unfold file_info in H.
  apply occurs_at_cons in H as [Hty H].
  apply occurs_at_app in H as [Hns H].
  apply occurs_at_app in H as [Hnm Hpn].
  assert (Hz : ∀ v, zlen (size_t_bytes v) = st_size).
  { intros v. unfold zlen. rewrite length_size_t_bytes. unfold st_size. lia. }
  rewrite Hz in Hnm, Hpn.
  pose proof (zlen_nonneg (list_byte_of_string file)).
  apply occurs_at_size_t in Hns; [|unfold st_size in *; lia].
  apply occurs_at_size_t in Hpn; [|done].
  unfold record_at. rewrite Hty. simpl. rewrite FileType_char_nonzero.
  rewrite Hns. simpl. rewrite Hpn. simpl.
  destruct Hnm as [_ Hnm]. unfold zlen at 1. rewrite Nat2Z.id. rewrite Hnm.
  rewrite string_of_list_byte_of_string. do 2 f_equal. lia.
Qed.

(** X: [ReadFileInfo] decodes the record [CreateFile] writes: where the
    bytes of [file_info] stand in a page, it returns their type, name and
    page, and the offset behind them. *)
Theorem ReadFileInfo_file_info page_size pg pos type file next_page :
  zlen pg = page_size → page_size < size_modulus → 0 ≤ next_page < size_modulus →
  occurs_at (file_info type file next_page) pg pos →
  ReadFileInfo page_size pg pos
  = Ok ({| Info.type := FileType.char type; Info.name := file; Info.page := next_page |},
        pos + zlen (file_info type file next_page)).
Proof.
  intros Hlen Hmax Hnext H.
  pose proof (occurs_at_bound _ _ _ H ltac:(done)) as Hb.
  rewrite zlen_file_info in Hb. pose proof (zlen_nonneg (list_byte_of_string file)).
  pose proof H as [Hpos _].
  eapply ReadFileInfo_record_at; [|done|done|].
  - unfold st_size in *. lia.
  - apply record_at_file_info; [lia|done|done].
Qed.

(** The second record of the sample page, at offset 19. *)
Lemma ReadFileInfo_file_info_witness :
  ReadFileInfo Sample.page_size Sample.page0 19
  = Ok ({| Info.type := FileType.char FileType.file; Info.name := "/f"; Info.page := 2 |}, 38).
Proof.
  apply (ReadFileInfo_file_info Sample.page_size Sample.page0 19 FileType.file "/f" 2).
  - reflexivity.
  - reflexivity.
  - split; [lia|reflexivity].
  - split; [lia|vm_compute; reflexivity].
Defined.

Section PageEnd.
Variable page_size : Z.
Hypothesis page_size_range : st_size < page_size < size_modulus.

Lemma FindPageEnd_loop_ok pg pos e :
  zlen pg = page_size → packed_until pg pos e →
  ∃ fuel0, ∀ fuel, (fuel0 ≤ fuel)%nat → FindPageEnd_loop page_size fuel pg pos = Ok e.
Proof.
  intros Hlen H. induction H as [e He Hz|pos r next e Hpos Hr Hrest [fuel0 IH]].
  - exists 1%nat. intros [|fuel] Hfuel; [lia|]. simpl. rewrite Hz. done.
  - exists (S fuel0). intros [|fuel] Hfuel; [lia|]. cbn [FindPageEnd_loop].
    unfold record_at in Hr.
    destruct (pg !! Z.to_nat pos) as [ty|] eqn:Hty; [|done]. simpl in Hr.
    destruct (Byte.eqb ty x00) eqn:Hz; [done|].
    destruct (read_size_t pg (pos + 1)) as [ns|] eqn:Hns; [|done]. simpl in Hr.
    destruct (read_size_t pg (pos + 1 + st_size + ns)) as [pn|] eqn:Hpn; [|done].
    simpl in Hr. injection Hr as <- <-.
    apply read_size_t_Some in Hns as Hns'. destruct Hns' as (_ & Hb1 & Hnsr).
    apply read_size_t_Some in Hpn as Hpn'. destruct Hpn' as (_ & Hb2 & _).
    rewrite Hlen in Hb1, Hb2.
    cbn [of_option mbind outcome_bind]. rewrite Hz. cbn [negb andb].
    destruct (Z.ltb_spec pos page_size); [|unfold st_size in *; lia].
    rewrite (wrap_small (pos + 1)) by (unfold st_size in *; lia).
    unfold substr_check.
    destruct (Z.ltb_spec page_size (pos + 1)); [unfold st_size in *; lia|].
    cbn [mbind outcome_bind]. rewrite Hns. cbn [of_option]. unfold mbind, outcome_bind.
    rewrite (wrap_small (ns + st_size + st_size)) by (unfold st_size in *; lia).
    rewrite (wrap_small (pos + 1 + (ns + st_size + st_size)))
      by (unfold st_size in *; lia).
    replace (pos + 1 + (ns + st_size + st_size)) with (pos + 1 + st_size + ns + st_size)
      by lia.
    apply IH. lia.
Qed.

(** X: on a page whose records pack from offset 0 up to a type byte
    of 0 at [e], [FindPageEnd] returns [e], or [page_size - st_size] when [e]
    lies in the link. *)
Theorem FindPageEnd_packed pg e :
  zlen pg = page_size → packed_until pg 0 e →
  ∃ fuel0, ∀ fuel, (fuel0 ≤ fuel)%nat →
    FindPageEnd page_size fuel pg = Ok (Z.min e (page_size - st_size)).
Proof.
  intros Hlen H. destruct (FindPageEnd_loop_ok pg 0 e Hlen H) as [fuel0 Hloop].
  exists fuel0. intros fuel Hfuel. unfold FindPageEnd. rewrite (Hloop fuel Hfuel).
  cbn [mbind outcome_bind mret outcome_ret].
  rewrite wrap_small by (unfold st_size in *; lia). done.
Qed.
End PageEnd.

Lemma Sample_packed : packed_until Sample.page0 0 38.
Proof.
  eapply packed_cons; [lia|vm_compute; reflexivity|].
  eapply packed_cons; [lia|vm_compute; reflexivity|].
  apply packed_end; [lia|vm_compute; reflexivity].
Defined.

Lemma FindPageEnd_packed_witness :
  ∃ fuel0, ∀ fuel, (fuel0 ≤ fuel)%nat →
    FindPageEnd Sample.page_size fuel Sample.page0 = Ok 38.
Proof.
  apply (FindPageEnd_packed Sample.page_size ltac:(vm_compute; split; reflexivity)
           Sample.page0 38 ltac:(reflexivity) Sample_packed).
Defined.

(** ** The smallest backing file *)

Lemma min_element_spec l x :
  ∃ i, (x :: l) !! i = Some (min_element x l) ∧
       (∀ j e, (x :: l) !! j = Some e →
               PFile.GetSize (min_element x l).2 ≤ PFile.GetSize e.2) ∧
       (∀ j e, (j < i)%nat → (x :: l) !! j = Some e →
               PFile.GetSize (min_element x l).2 < PFile.GetSize e.2).
Proof.
  revert x. induction l as [|y l IH]; intros x.
  - exists 0%nat. simpl. split; [done|]. split.
    + intros [|j] e E; [by injection E as <-|done].
    + intros j e Hj. lia.
  - cbn [min_element]. destruct (Z.ltb_spec (PFile.GetSize y.2) (PFile.GetSize x.2))
      as [Hlt|Hge].
    + destruct (IH y) as (i & Hi & Hmin & Hstrict). exists (S i).
      split; [done|]. pose proof (Hmin 0%nat y eq_refl) as Hy. split.
      * intros [|j] e E; [injection E as <-; lia|]. by apply (Hmin j).
      * intros [|j] e Hj E; [injection E as <-; lia|]. apply (Hstrict j); [lia|done].
    + destruct (IH x) as (i & Hi & Hmin & Hstrict).
      pose proof (Hmin 0%nat x eq_refl) as Hx.
      destruct i as [|i].
      * exists 0%nat. split; [done|]. split; [|intros j e Hj; lia].
        intros [|[|j]] e E.
        -- injection E as <-. lia.
        -- injection E as <-. lia.
        -- by apply (Hmin (S j)).
      * pose proof (Hstrict 0%nat x ltac:(lia) eq_refl) as Hx'.
        exists (S (S i)). split; [done|]. split.
        -- intros [|[|j]] e E.
           ++ injection E as <-. lia.
           ++ injection E as <-. lia.
           ++ by apply (Hmin (S j)).
        -- intros [|[|j]] e Hj E.
           ++ injection E as <-. lia.
           ++ injection E as <-. lia.
           ++ apply (Hstrict (S j)); [lia|done].
Qed.

(** X: [FindSmallestPFile] returns the key of a backing file of least
    size, and of the first such file in the order of the map: no backing
    file is smaller, and every one before it is larger. *)
Theorem FindSmallestPFile_least s :
  physical_files s ≠ [] →
  ∃ i p f, FindSmallestPFile s = Ok (p, s) ∧
           physical_files s !! i = Some (p, f) ∧
           (∀ j q g, physical_files s !! j = Some (q, g) →
                     PFile.GetSize f ≤ PFile.GetSize g) ∧
           (∀ j q g, (j < i)%nat → physical_files s !! j = Some (q, g) →
                     PFile.GetSize f < PFile.GetSize g).
Proof.
  intros Hne. unfold FindSmallestPFile. munfold.
  destruct (physical_files s) as [|x l]; [done|].
  destruct (min_element_spec l x) as (i & Hi & Hmin & Hstrict).
  destruct (min_element x l) as [p f]. exists i, p, f.
  split; [done|]. split; [done|]. split.
  - intros j q g E. apply (Hmin j (q, g) E).
  - intros j q g Hj E. apply (Hstrict j (q, g) Hj E).
Qed.

Lemma FindSmallestPFile_least_witness :
  ∃ i p f, FindSmallestPFile Scenario.with_writer = Ok (p, Scenario.with_writer) ∧
           physical_files Scenario.with_writer !! i = Some (p, f) ∧
           (∀ j q g, physical_files Scenario.with_writer !! j = Some (q, g) →
                     PFile.GetSize f ≤ PFile.GetSize g) ∧
           (∀ j q g, (j < i)%nat → physical_files Scenario.with_writer !! j = Some (q, g) →
                     PFile.GetSize f < PFile.GetSize g).
Proof.
  apply (FindSmallestPFile_least Scenario.with_writer). vm_compute. discriminate.
Defined.

(** ** The constructor *)

Lemma pf_lookup_emplace p q f l :
  pf_lookup p l = None →
  pf_lookup q (pf_emplace p f l) = if path_eqb q p then Some f else pf_lookup q l.
Proof.
  intros Hp. induction l as [|[k g] l IH]; simpl.
  - by destruct (path_eqb q p).
  - simpl in Hp. destruct (path_eqb p k) eqn:Epk; [done|].
    assert (Hqk : path_eqb q p = true → path_eqb q k = false).
    { intros Hqp. destruct (path_eqb q k) eqn:Eqk; [|done].
      assert (path_eqb p k = true) by eauto using path_eqb_sym, path_eqb_trans.
      congruence. }
    destruct (path_compare p k); simpl.
    + destruct (path_eqb q k) eqn:Eqk.
      * destruct (path_eqb q p) eqn:Eqp; [|done]. by specialize (Hqk eq_refl).
      * by apply IH.
    + destruct (path_eqb q p) eqn:Eqp; [done|]. done.
    + destruct (path_eqb q k) eqn:Eqk.
      * destruct (path_eqb q p) eqn:Eqp; [|done]. by specialize (Hqk eq_refl).
      * by apply IH.
Qed.

Lemma pf_update_emplace p f f' l :
  pf_lookup p l = None → pf_update p f' (pf_emplace p f l) = pf_emplace p f' l.
Proof.
  intros Hp. induction l as [|[k g] l IH]; simpl.
  - by rewrite path_eqb_refl.
  - simpl in Hp. destruct (path_eqb p k) eqn:Epk; [done|].
    destruct (path_compare p k); simpl.
    + rewrite Epk. f_equal. by apply IH.
    + by rewrite path_eqb_refl.
    + rewrite Epk. f_equal. by apply IH.
Qed.

Lemma pf_emplace_Forall (P : path * PhysicalFile → Prop) p f l :
  P (p, f) → Forall P l → Forall P (pf_emplace p f l).
Proof.
  intros Hf. induction 1 as [|[k g] l Hk Hl IH]; simpl; [by constructor|].
  destruct (path_compare p k); repeat constructor; done.
Qed.

Lemma length_pf_emplace p f l : length (pf_emplace p f l) = S (length l).
Proof.
  induction l as [|[k g] l IH]; simpl; [done|].
  destruct (path_compare p k); simpl; by rewrite ?IH.
Qed.

Lemma path_eqb_sym_false p q : path_eqb p q = false → path_eqb q p = false.
Proof.
  intros H. destruct (path_eqb q p) eqn:E; [|done].
  apply path_eqb_sym in E. congruence.
Qed.

Lemma pf_lookup_key k l :
  k ∈ l.*1 → ∃ e, e ∈ l ∧ pf_lookup k l = Some e.2.
Proof.
  induction l as [|[q g] l IH]; simpl; [by intros ?%elem_of_nil|].
  intros H. destruct (path_eqb k q) eqn:E.
  - exists (q, g). split; [by left|done].
  - apply elem_of_cons in H as [->|H]; [by rewrite path_eqb_refl in E|].
    destruct (IH H) as (e & He & Hl). exists e. split; [by right|done].
Qed.

Section Constructor.
Variable page_size : Z.

Lemma PFile_Write_header host_path :
  PFile.Write (PFile.open host_path []) (Some (zeroes page_size)) st_size 0
  = ({| filepath := host_path; content := zeroes st_size; file_size := st_size |}, st_size).
Proof.
  unfold PFile.Write, PFile.Write_rejects, PFile.open, PFile.GetSize. simpl.
  unfold PFile.stream_write, load, zeroes. rewrite resize_replicate. reflexivity.
Qed.

(** One turn of the loop over the host files. *)
Lemma VFS_open_files_cons file host rest s :
  pf_lookup file (physical_files s) = None →
  ∃ s' f, VFS_open_files page_size ((file, host) :: rest) s
          = VFS_open_files page_size rest s' ∧
          physical_files s' = pf_emplace file f (physical_files s) ∧
          virtual_files s' = virtual_files s ∧
          virtual_dirs s' = virtual_dirs s ∧
          num_of_files s' = num_of_files s ∧
          (host ≠ [] → f = PFile.open file host) ∧
          (host = [] → 0 < page_size → st_size + page_size < size_modulus →
           f = fresh_file page_size file).
Proof.
  intros Hnone. cbn [VFS_open_files].
  unfold mbind at 1, M_bind at 1, get at 1. rewrite Hnone.
  unfold mbind at 1, M_bind at 1, modify at 1.
  set (f0 := PFile.open file host).
  set (s0 := set_io_mutexes _ _).
  assert (Hl0 : pf_lookup file (physical_files s0) = Some f0).
  { subst s0. simpl. by rewrite pf_lookup_emplace, path_eqb_refl. }
  rewrite (bind_Ok _ _ _ _ _ (pfile_GetSize_ok file f0 s0 Hl0)).
  assert (Hsize : PFile.GetSize f0 = zlen host).
  { unfold PFile.GetSize, f0. simpl. by destruct (zlen host =? 0). }
  rewrite Hsize.
  destruct (Z.eqb_spec (zlen host) 0) as [Hz|Hnz].
  - assert (host = []) as -> by (destruct host; [done|unfold zlen in Hz; simpl in Hz; lia]).
    destruct (pfile_Append_ok file f0 (Some (zeroes page_size)) st_size s0 Hl0)
      as (s1 & E1 & Hp1 & Hf1 & Hd1 & Hm1 & Hn1).
    rewrite Hsize in E1, Hp1. change (zlen []) with 0 in E1, Hp1.
    unfold f0 in E1, Hp1. rewrite PFile_Write_header in E1, Hp1. cbn [fst snd] in E1, Hp1.
    unfold mbind at 1, M_bind at 1. unfold mbind at 1, M_bind at 1. rewrite E1.
    rewrite Z.eqb_refl. cbn [negb].
    set (f1 := {| filepath := file; content := zeroes st_size; file_size := st_size |}) in *.
    assert (Hl1 : pf_lookup file (physical_files s1) = Some f1).
    { rewrite Hp1. by eapply pf_lookup_update_eq. }
    unfold CreateEmptyPage.
    destruct (pfile_Append_ok file f1 (Some (zeroes page_size)) page_size s1 Hl1)
      as (s2 & E2 & Hp2 & Hf2 & Hd2 & Hm2 & Hn2).
    unfold mbind at 1, M_bind at 1. rewrite E2. unfold mret at 1, M_ret at 1.
    eexists s2, _. split; [reflexivity|].
    split.
    { rewrite Hp2, Hp1. subst s0. cbn [physical_files set_io_mutexes set_physical_files].
      unfold f0. rewrite !pf_update_emplace by done. reflexivity. }
    split; [by rewrite Hf2, Hf1|]. split; [by rewrite Hd2, Hd1|].
    split; [by rewrite Hn2, Hn1|]. split; [done|].
    intros _ Hps Hmax.
    assert (Hwf1 : pf_wf f1) by (unfold pf_wf, f1; simpl; reflexivity).
    rewrite (GetSize_wf f1 Hwf1).
    rewrite PFile_Write_store
      by (try done; unfold f1; cbn [content]; rewrite ?zlen_zeroes; unfold st_size in *; lia).
    cbn [fst]. unfold fresh_file, f1. cbn [content filepath].
    rewrite store_at_end. rewrite zlen_zeroes by (unfold st_size; lia).
    f_equal.
    + f_equal. rewrite <- (zlen_zeroes page_size) at 1 by lia. apply load_exact.
    + lia.
  - unfold mbind at 1, M_bind at 1, mret at 1, M_ret at 1.
    exists s0, f0. split; [done|]. split; [done|]. split; [done|]. split; [done|].
    split; [done|]. split; [done|]. intros ->. done.
Qed.

Lemma VFS_open_files_clash file host rest s :
  pf_lookup file (physical_files s) ≠ None →
  VFS_open_files page_size ((file, host) :: rest) s = Throw FileAlreadyExists.
Proof.
  intros H. cbn [VFS_open_files]. unfold mbind at 1, M_bind at 1, get at 1.
  destruct (pf_lookup file (physical_files s)); done.
Qed.

(** [Init] on a backing file whose header is 0. *)
Lemma Init_header_zero fuel p f s :
  pf_lookup p (physical_files s) = Some f → pf_wf f → st_size ≤ zlen (content f) →
  file_header (content f) = 0 →
  ∃ s', Init page_size fuel p p s = Ok (tt, s') ∧
        physical_files s' = physical_files s ∧ virtual_files s' = virtual_files s ∧
        virtual_dirs s' = virtual_dirs s ∧ num_of_files s' = num_of_files s.
Proof.
  intros Hp Hwf Hlen Hz. unfold Init.
  destruct (pfile_Read_ok p f (Some (zeroes st_size)) st_size 0 s Hp)
    as (s1 & E1 & Hd1 & Hf1 & Hp1 & Hn1).
  rewrite (bind_Ok _ _ _ _ _ E1). rewrite (PFile_Read_header f _ Hwf Hlen).
  rewrite Z.eqb_refl. cbn [negb].
  rewrite store_at_whole
    by (unfold zeroes; rewrite length_replicate, length_take; unfold zlen in *; lia).
  fold (file_header (content f)). rewrite Hz. simpl. by exists s1.
Qed.

Lemma VFS_init_files_fresh fuel keys s :
  Forall (fun e => e.2 = fresh_file page_size e.1) (physical_files s) →
  0 ≤ page_size →
  keys ⊆ (physical_files s).*1 →
  ∃ s', VFS_init_files page_size fuel keys s = Ok (tt, s') ∧
        physical_files s' = physical_files s ∧ virtual_files s' = virtual_files s ∧
        virtual_dirs s' = virtual_dirs s ∧ num_of_files s' = num_of_files s.
Proof.
  intros Hall Hps. revert s Hall. induction keys as [|k keys IH]; intros s Hall Hsub.
  - by exists s.
  - cbn [VFS_init_files].
    destruct (pf_lookup_key k (physical_files s)) as (e & He & Hl).
    { apply Hsub. by left. }
    rewrite Forall_forall in Hall. pose proof (Hall e He) as Hfresh.
    destruct (Init_header_zero fuel k e.2 s Hl) as (s1 & E1 & Hp1 & Hf1 & Hd1 & Hn1).
    + rewrite Hfresh. unfold pf_wf, fresh_file. cbn [content file_size].
      rewrite zlen_app, !zlen_zeroes by (unfold st_size; lia). done.
    + rewrite Hfresh. unfold fresh_file. cbn [content].
      rewrite zlen_app, !zlen_zeroes by (unfold st_size; lia). lia.
    + rewrite Hfresh. unfold fresh_file, file_header. cbn [content].
      rewrite take_app_length' by (unfold zeroes; by rewrite length_replicate).
      reflexivity.
    + rewrite (bind_Ok _ _ _ _ _ E1).
      destruct (IH s1) as (s2 & E2 & Hp2 & Hf2 & Hd2 & Hn2).
      * rewrite Hp1. by apply Forall_forall.
      * rewrite Hp1. intros x Hx. apply Hsub. by right.
      * exists s2. split; [done|]. repeat split; congruence.
Qed.

Lemma paths_distinct_cons p l :
  paths_distinct (p :: l) = true →
  (∀ q, q ∈ l → path_eqb p q = false) ∧ paths_distinct l = true.
Proof.
  simpl. intros H. apply andb_prop in H as [H1 H2]. split; [|done].
  intros q Hq. destruct (path_eqb p q) eqn:E; [|done].
  apply negb_true_iff in H1. assert (existsb (path_eqb p) l = true); [|congruence].
  apply existsb_exists. exists q. split; [by apply list_elem_of_In|done].
Qed.

Lemma VFS_open_files_fresh files s :
  0 < page_size → st_size + page_size < size_modulus →
  paths_distinct files.*1 = true →
  (∀ p, p ∈ files.*1 → pf_lookup p (physical_files s) = None) →
  (∀ e, e ∈ files → e.2 = []) →
  Forall (fun e => e.2 = fresh_file page_size e.1) (physical_files s) →
  ∃ s', VFS_open_files page_size files s = Ok (tt, s') ∧
        (∀ p, p ∈ files.*1 → pf_lookup p (physical_files s') = Some (fresh_file page_size p)) ∧
        (∀ q, pf_lookup q (physical_files s) ≠ None →
              pf_lookup q (physical_files s') = pf_lookup q (physical_files s)) ∧
        Forall (fun e => e.2 = fresh_file page_size e.1) (physical_files s') ∧
        length (physical_files s') = (length files + length (physical_files s))%nat ∧
        virtual_files s' = virtual_files s ∧ virtual_dirs s' = virtual_dirs s ∧
        num_of_files s' = num_of_files s.
Proof.
  intros Hps Hmax. revert s.
  induction files as [|[file host] rest IH]; intros s Hdist Hnone Hempty Hall.
  - exists s. split; [done|]. split; [by intros p ?%elem_of_nil|]. done.
  - cbn [fmap list_fmap fst] in Hdist.
    apply paths_distinct_cons in Hdist as [Hfile Hdist].
    destruct (VFS_open_files_cons file host rest s) as (s1 & f & E1 & Hp1 & Hf1 & Hd1 & Hn1 & _ & Hf).
    { apply Hnone. by left. }
    assert (host = []) as -> by (apply (Hempty (file, host)); by left).
    specialize (Hf eq_refl Hps Hmax). subst f.
    assert (Hnone_file : pf_lookup file (physical_files s) = None) by (apply Hnone; by left).
    destruct (IH s1) as (s2 & E2 & Hnew & Hold & Hall2 & Hlen2 & Hf2 & Hd2 & Hn2).
    + done.
    + intros p Hp. rewrite Hp1, pf_lookup_emplace by done.
      rewrite path_eqb_sym_false by (apply Hfile; done).
      apply Hnone. by right.
    + intros e He. apply Hempty. by right.
    + rewrite Hp1. by apply pf_emplace_Forall.
    + exists s2. rewrite E1. split; [done|]. split; [|split; [|split; [|split]]].
      * intros p [->|Hp]%elem_of_cons; [|by apply Hnew].
        rewrite Hold; rewrite Hp1, pf_lookup_emplace, path_eqb_refl by done; done.
      * intros q Hq. rewrite Hold.
        -- rewrite Hp1, pf_lookup_emplace by done.
           destruct (path_eqb q file) eqn:Eq; [|done].
           rewrite (pf_lookup_proper q file) in Hq by done. done.
        -- rewrite Hp1, pf_lookup_emplace by done. by destruct (path_eqb q file).
      * done.
      * rewrite Hlen2, Hp1, length_pf_emplace. simpl. lia.
      * repeat split; congruence.
Qed.
End Constructor.

Lemma page_aligned_fresh page_size s :
  0 < page_size →
  Forall (fun e => e.2 = fresh_file page_size e.1) (physical_files s) →
  page_aligned page_size s = true.
Proof.
  intros Hps Hall. unfold page_aligned. apply forallb_forall. intros e He.
  rewrite Forall_forall in Hall. rewrite (Hall e) by by apply list_elem_of_In.
  unfold PFile.GetSize, fresh_file. cbn [file_size content].
  destruct (Z.eqb_spec (st_size + page_size) 0); [unfold st_size in *; lia|].
  replace (st_size + page_size - st_size) with (0 + 1 * page_size) by lia.
  by rewrite Z.mod_add by lia.
Qed.

(** X: constructed on host files that are empty or do not exist yet,
    given under paths of which no two are the same, the VFS has one backing
    file per path, each a header of [st_size] zero bytes followed by one page
    of zero bytes; it knows no directory and no open file, counts no file,
    and its backing files are page aligned. *)
Theorem VFS_new_fresh max_files page_size fuel files :
  0 < page_size → st_size + page_size < size_modulus →
  0 < zlen files ≤ max_files →
  paths_distinct files.*1 = true →
  (∀ e, e ∈ files → e.2 = []) →
  ∃ s, VFS_new max_files page_size fuel files = Ok s ∧
       (∀ p, p ∈ files.*1 →
             pf_lookup p (physical_files s) = Some (fresh_file page_size p)) ∧
       length (physical_files s) = length files ∧
       virtual_files s = ∅ ∧ virtual_dirs s = ∅ ∧ num_of_files s = 0 ∧
       page_aligned page_size s = true.
Proof.
  intros Hps Hmax Hcount Hdist Hempty. unfold VFS_new.
  destruct (Z.eqb_spec (zlen files) 0); [lia|].
  destruct (Z.ltb_spec max_files (zlen files)); [lia|].
  destruct (VFS_open_files_fresh page_size files VFS_members Hps Hmax Hdist)
    as (s1 & E1 & Hnew & _ & Hall & Hlen & Hf1 & Hd1 & Hn1); [done|done|by constructor|].
  destruct (VFS_init_files_fresh page_size fuel (map fst (physical_files s1)) s1 Hall)
    as (s2 & E2 & Hp2 & Hf2 & Hd2 & Hn2); [lia|intros x Hx; exact Hx|].
  unfold mbind at 2, M_bind at 1. rewrite E1.
  unfold mbind at 2, M_bind at 1, get at 1. rewrite E2.
  cbn [mbind outcome_bind mret outcome_ret]. exists s2. split; [done|].
  split; [intros p Hp; rewrite Hp2; by apply Hnew|].
  split; [rewrite Hp2, Hlen; simpl; lia|].
  split; [by rewrite Hf2, Hf1|]. split; [by rewrite Hd2, Hd1|].
  split; [by rewrite Hn2, Hn1|].
  apply page_aligned_fresh; [done|]. by rewrite Hp2.
Qed.

(** The five backing files of the scenarios. *)
Lemma VFS_new_fresh_witness :
  ∃ s, VFS_new Scenario.max_files Scenario.page_size Scenario.fuel Scenario.backing = Ok s ∧
       (∀ p, p ∈ Scenario.backing.*1 →
             pf_lookup p (physical_files s) = Some (fresh_file Scenario.page_size p)) ∧
       length (physical_files s) = length Scenario.backing ∧
       virtual_files s = ∅ ∧ virtual_dirs s = ∅ ∧ num_of_files s = 0 ∧
       page_aligned Scenario.page_size s = true.
Proof.
  apply (VFS_new_fresh Scenario.max_files Scenario.page_size Scenario.fuel Scenario.backing).
  - reflexivity.
  - reflexivity.
  - split; reflexivity.
  - reflexivity.
  - intros e He. repeat (apply elem_of_cons in He as [->|He]; [reflexivity|]).
    by apply elem_of_nil in He.
Defined.

Lemma VFS_open_files_duplicate page_size files s :
  (∃ p, p ∈ files.*1 ∧ pf_lookup p (physical_files s) ≠ None) ∨
  paths_distinct files.*1 = false →
  VFS_open_files page_size files s = Throw FileAlreadyExists.
Proof.
  revert s. induction files as [|[file host] rest IH]; intros s H.
  - destruct H as [(p & Hp & _)|H]; [by apply elem_of_nil in Hp|done].
  - destruct (pf_lookup file (physical_files s)) as [f|] eqn:Hfile.
    { apply VFS_open_files_clash. by rewrite Hfile. }
    destruct (VFS_open_files_cons page_size file host rest s Hfile)
      as (s1 & f & E1 & Hp1 & _).
    rewrite E1. apply IH. rewrite Hp1.
    destruct H as [(p & Hp & Hsome)|H].
    + left. exists p. cbn [fmap list_fmap fst] in Hp.
      apply elem_of_cons in Hp as [->|Hp]; [done|]. split; [done|].
      rewrite pf_lookup_emplace by done. by destruct (path_eqb p file).
    + cbn [fmap list_fmap fst paths_distinct] in H.
      apply andb_false_iff in H as [H|H]; [|by right].
      left. apply negb_false_iff, existsb_exists in H as (q & Hq & Hfq).
      exists q. split; [by apply list_elem_of_In|].
      rewrite pf_lookup_emplace by done. by rewrite (path_eqb_sym _ _ Hfq).
Qed.

(** X: the constructor throws [NoFiles] for an empty list of paths,
    [TooManyFiles] for more than [max_files] of them, and
    [FileAlreadyExists] when two of them are the same path. *)
Theorem VFS_new_errors max_files page_size fuel files :
  0 ≤ max_files →
  (files = [] → VFS_new max_files page_size fuel files = Throw NoFiles) ∧
  (max_files < zlen files → VFS_new max_files page_size fuel files = Throw TooManyFiles) ∧
  (0 < zlen files ≤ max_files → paths_distinct files.*1 = false →
   VFS_new max_files page_size fuel files = Throw FileAlreadyExists).
Proof.
  intros Hmax. split; [|split].
  - intros ->. reflexivity.
  - intros H. unfold VFS_new.
    destruct (Z.eqb_spec (zlen files) 0); [lia|].
    destruct (Z.ltb_spec max_files (zlen files)); [done|lia].
  - intros Hcount Hdup. unfold VFS_new.
    destruct (Z.eqb_spec (zlen files) 0); [lia|].
    destruct (Z.ltb_spec max_files (zlen files)); [lia|].
    unfold mbind at 2, M_bind at 1.
    rewrite (VFS_open_files_duplicate page_size files VFS_members); [done|by right].
Qed.

(** ["/vfs/1.vfs"] given twice, the second time with a doubled separator. *)
Lemma VFS_new_errors_witness :
  VFS_new 5 4096 1 [("/vfs/1.vfs"%string, []); ("/vfs/2.vfs"%string, []);
                    ("/vfs//1.vfs"%string, [])]
  = Throw FileAlreadyExists.
Proof.
  apply (VFS_new_errors 5 4096 1 [("/vfs/1.vfs"%string, []); ("/vfs/2.vfs"%string, []);
                                  ("/vfs//1.vfs"%string, [])]).
  - lia.
  - split; [reflexivity|vm_compute; discriminate].
  - reflexivity.
Defined.

(** X: a host file that is not empty and shorter than the header makes
    the constructor throw [FileReadingError]. *)
Theorem VFS_new_short_file max_files page_size fuel p host :
  1 ≤ max_files → 0 < zlen host < st_size →
  VFS_new max_files page_size fuel [(p, host)] = Throw FileReadingError.
Proof.
  intros Hmax Hlen. unfold VFS_new. change (zlen [(p, host)]) with 1.
  cbn [Z.eqb]. destruct (Z.ltb_spec max_files 1); [lia|].
  destruct (VFS_open_files_cons page_size p host [] VFS_members eq_refl)
    as (s1 & f & E1 & Hp1 & _ & _ & _ & Hf & _).
  assert (E1' : VFS_open_files page_size [(p, host)] VFS_members = Ok (tt, s1)) by exact E1.
  rewrite Hf in Hp1 by (intros ->; unfold zlen in Hlen; simpl in Hlen; lia).
  assert (Hl : pf_lookup p (physical_files s1) = Some (PFile.open p host)).
  { rewrite Hp1. simpl. by rewrite path_eqb_refl. }
  assert (EI : Init page_size fuel p p s1 = Throw FileReadingError).
  { unfold Init.
    destruct (pfile_Read_ok p _ (Some (zeroes st_size)) st_size 0 s1 Hl) as (s2 & E2 & _).
    rewrite (bind_Ok _ _ _ _ _ E2).
    assert (Hwf : pf_wf (PFile.open p host)) by reflexivity.
    destruct (PFile_Read_count (PFile.open p host) (Some (zeroes st_size)) st_size 0 Hwf)
      as (Hn & _); [lia|unfold st_size; lia|].
    destruct (PFile.Read (PFile.open p host) (Some (zeroes st_size)) st_size 0) as [data n].
    cbn [snd] in Hn. rewrite (GetSize_wf _ Hwf) in Hn. cbn [PFile.open content] in Hn.
    destruct (Z.eqb_spec st_size n); [unfold st_size in *; lia|]. reflexivity. }
  rewrite (bind_Ok _ _ _ _ _ E1'). rewrite (bind_Ok get _ s1 s1 s1 eq_refl).
  rewrite Hp1. cbn [VFS_members physical_files pf_emplace map fst VFS_init_files].
  unfold mbind at 2, M_bind at 1. rewrite EI. reflexivity.
Qed.

Lemma VFS_new_short_file_witness :
  VFS_new 5 4096 1 [("/vfs/1.vfs"%string, [x01; x02; x03])] = Throw FileReadingError.
Proof.
  apply (VFS_new_short_file 5 4096 1 "/vfs/1.vfs" [x01; x02; x03]).
  - lia.
  - split; reflexivity.
Defined.
